(** * Premiere automation bridge: request channel, liveness, recovery, pipeline

    A shallow embedding of the coordinator process of the repository
    (the MCP server module and [dialog-handler.js]) together with the
    properties its specification states about it.

    The server is a single-threaded, event-driven JavaScript program.  Its
    module-level variables become one record, every callback the runtime can
    invoke becomes an event, and the asynchronous functions that poll with
    [await] take the observations they make at their suspension points from
    an explicit environment. *)

From stdpp Require Import gmap strings list pretty.
From Equations Require Import Equations.
From Stdlib Require Import ZArith Lia Sorting.Sorted.

Local Open Scope Z_scope.
Set Warnings "-register-all".

(** ** JavaScript values

    The values that travel over the wire are parsed JSON.  Numbers are the
    integer-valued ones (request ids, sizes); a property that is absent
    reads as [VUndefined]. *)

Module JS.

Inductive value : Type :=
| VUndefined
| VNull
| VBool (b : bool)
| VNum (n : Z)
| VStr (s : string)
| VArr (items : list value)
| VObj (fields : list (string * value)).

(** [ToBoolean]: what [if (v)] and [!v] test. *)
Definition truthy (v : value) : bool :=
  match v with
  | VUndefined | VNull => false
  | VBool b => b
  | VNum n => negb (n =? 0)
  | VStr s => negb (String.eqb s "")
  | VArr _ | VObj _ => true
  end.

(** [ToString], as used by template literals and by [new Error(v)], for
    numbers that print without an exponent and objects without a
    [toString] of their own. *)
Fixpoint to_string (v : value) : string :=
  match v with
  | VUndefined => "undefined"
  | VNull => "null"
  | VBool true => "true"
  | VBool false => "false"
  | VNum n => pretty n
  | VStr s => s
  | VArr items =>
      (fix join (l : list value) : string :=
         match l with
         | [] => ""
         | x :: r =>
             let sx := match x with
                       | VUndefined | VNull => ""
                       | _ => to_string x
                       end in
             match r with
             | [] => sx
             | _ => sx +:+ "," +:+ join r
             end
         end) items
  | VObj _ => "[object Object]"
  end.

Fixpoint assoc (k : string) (fields : list (string * value)) : value :=
  match fields with
  | [] => VUndefined
  | (k', v) :: rest => if String.eqb k k' then v else assoc k rest
  end.

(** Property read [v.k].  [inl msg] is the [TypeError] thrown when [v] is
    [undefined] or [null]; own properties of primitives and arrays are not
    modelled and read as [undefined]. *)
Definition get (v : value) (k : string) : string + value :=
  match v with
  | VUndefined =>
      inl ("Cannot read properties of undefined (reading '" +:+ k +:+ "')")
  | VNull =>
      inl ("Cannot read properties of null (reading '" +:+ k +:+ "')")
  | VObj fields => inr (assoc k fields)
  | _ => inr VUndefined
  end.

(** [v === "s"] for a string literal. *)
Definition is_str (v : value) (s : string) : bool :=
  match v with
  | VStr s' => String.eqb s' s
  | _ => false
  end.

End JS.

Import JS.

(** ** The coordinator: module state of the server *)

Module Server.

(** The closure stored under a request id in [pendingRequests]: it captures
    the timer of its own [sendToPremmiere] call and the [resolve]/[reject]
    pair of the promise created there. *)
Record pending : Type := Pending {
  p_timer : nat;
  p_promise : nat
}.

(** What a [setTimeout] callback of the server does when it fires. *)
Inductive callback : Type :=
| TimeoutReject (requestId : Z) (promise : nat) (timeout : Z)
| CrashCheck.

Inductive outcome : Type :=
| Resolved (result : value)
| Rejected (message : string).

Inductive cause : Type :=
| ByResponse (msg : value)
| ByTimeout (requestId : Z).

(** One call of a promise's [resolve] or [reject]. *)
Record settlement : Type := Settlement {
  s_promise : nat;
  s_outcome : outcome;
  s_cause : cause
}.

Record command : Type := Command {
  c_socket : nat;
  c_requestId : Z;
  c_command : string;
  c_params : value
}.

Record state : Type := State {
  (* module variables *)
  premiereConnection : option nat;
  lastHeartbeat : Z;
  pendingRequests : gmap Z pending;
  requestIdCounter : Z;
  lastCrashTime : Z;
  lastCrashLog : string;
  (* runtime: active timeouts, handle allocation *)
  timers : gmap nat callback;
  nextTimer : nat;
  nextPromise : nat;
  (* observation: frames written to sockets, calls of resolve/reject,
     and which promise was handed out for which request id (newest first) *)
  outbox : list command;
  settled : list settlement;
  issued : list (nat * Z)
}.

Definition init : state :=
  {| premiereConnection := None; lastHeartbeat := 0;
     pendingRequests := ∅; requestIdCounter := 0;
     lastCrashTime := 0; lastCrashLog := "";
     timers := ∅; nextTimer := 0; nextPromise := 0;
     outbox := []; settled := []; issued := [] |}.

Definition NOT_CONNECTED : string :=
  "Premiere not connected. Is it running with the CEP panel installed?".

Definition timeout_message (timeout : Z) : string :=
  "Request timed out after " +:+ pretty timeout +:+ "ms".

(** Result of calling [sendToPremmiere]: the async function either throws
    before reaching [new Promise] (its promise is born rejected), or hands
    out a promise that is still pending.

    The counter is a JavaScript number; it is taken as an unbounded integer
    (it stays exact for the first 2^53 sends).  Writing to the socket is
    taken not to throw. *)
Inductive sendResult : Type :=
| Threw (message : string)
| Awaiting (promise : nat) (requestId : Z).

Definition sendToPremmiere (st : state) (cmd : string) (params : value)
    (timeout : Z) : state * sendResult :=
  match premiereConnection st with
  | None => (st, Threw NOT_CONNECTED)
  | Some ws =>
      let requestId := requestIdCounter st + 1 in
      let promise := nextPromise st in
      let timer := nextTimer st in
      ({| premiereConnection := premiereConnection st;
          lastHeartbeat := lastHeartbeat st;
          pendingRequests :=
            <[requestId := Pending timer promise]> (pendingRequests st);
          requestIdCounter := requestId;
          lastCrashTime := lastCrashTime st;
          lastCrashLog := lastCrashLog st;
          timers :=
            <[timer := TimeoutReject requestId promise timeout]> (timers st);
          nextTimer := S timer;
          nextPromise := S promise;
          outbox := outbox st ++ [Command ws requestId cmd params];
          settled := settled st;
          issued := (promise, requestId) :: issued st |},
       Awaiting promise requestId)
  end.

(** What the closure [pending.resolve] settles its promise with. *)
Definition response_outcome (err result : value) : outcome :=
  if truthy err then Rejected (to_string err) else Resolved result.

(** [pendingRequests.get(k)]: the keys of the map are the numbers handed out
    by the counter, so only a number can hit. *)
Definition pending_get (st : state) (k : value) : option pending :=
  match k with
  | VNum n => pendingRequests st !! n
  | _ => None
  end.

Definition pending_delete (m : gmap Z pending) (k : value) : gmap Z pending :=
  match k with
  | VNum n => delete n m
  | _ => m
  end.

(** The body of the [try] block of the message handler, for a parsed
    message; [inl] is an exception on its way to the [catch]. *)
Definition handle_parsed (st : state) (msg : value) (now : Z)
    : string + state :=
  match get msg "type" with
  | inl e => inl e
  | inr ty =>
      if is_str ty "heartbeat" then
        inr {| premiereConnection := premiereConnection st;
               lastHeartbeat := now;
               pendingRequests := pendingRequests st;
               requestIdCounter := requestIdCounter st;
               lastCrashTime := lastCrashTime st;
               lastCrashLog := lastCrashLog st;
               timers := timers st; nextTimer := nextTimer st;
               nextPromise := nextPromise st;
               outbox := outbox st; settled := settled st;
               issued := issued st |}
      else if is_str ty "auto_setup_complete" then inr st
      else
        match get msg "requestId", get msg "error", get msg "result" with
        | inr rid, inr err, inr result =>
            if is_str ty "response" && truthy rid then
              match pending_get st rid with
              | Some pe =>
                  inr {| premiereConnection := premiereConnection st;
                         lastHeartbeat := lastHeartbeat st;
                         pendingRequests :=
                           pending_delete (pendingRequests st) rid;
                         requestIdCounter := requestIdCounter st;
                         lastCrashTime := lastCrashTime st;
                         lastCrashLog := lastCrashLog st;
                         timers := delete (p_timer pe) (timers st);
                         nextTimer := nextTimer st;
                         nextPromise := nextPromise st;
                         outbox := outbox st;
                         settled :=
                           settled st ++
                           [Settlement (p_promise pe)
                              (response_outcome err result)
                              (ByResponse msg)];
                         issued := issued st |}
              | None => inr st
              end
            else inr st
        | _, _, _ => inr st
        end
  end.

(** [ws.on("message")]: [data] is [None] when [JSON.parse] throws.  Every
    exception ends in the [catch], which only logs. *)
Definition on_message (st : state) (data : option value) (now : Z) : state :=
  match data with
  | None => st
  | Some msg =>
      match handle_parsed st msg now with
      | inl _ => st
      | inr st' => st'
      end
  end.

(** [wss.on("connection")]. *)
Definition on_connection (st : state) (ws : nat) (now : Z) : state :=
  {| premiereConnection := Some ws;
     lastHeartbeat := now;
     pendingRequests := pendingRequests st;
     requestIdCounter := requestIdCounter st;
     lastCrashTime := lastCrashTime st;
     lastCrashLog := lastCrashLog st;
     timers := timers st; nextTimer := nextTimer st;
     nextPromise := nextPromise st;
     outbox := outbox st; settled := settled st; issued := issued st |}.

(** [ws.on("close")], of whichever socket: forget the connection and
    schedule [checkForCrash]. *)
Definition on_close (st : state) : state :=
  {| premiereConnection := None;
     lastHeartbeat := lastHeartbeat st;
     pendingRequests := pendingRequests st;
     requestIdCounter := requestIdCounter st;
     lastCrashTime := lastCrashTime st;
     lastCrashLog := lastCrashLog st;
     timers := <[nextTimer st := CrashCheck]> (timers st);
     nextTimer := S (nextTimer st);
     nextPromise := nextPromise st;
     outbox := outbox st; settled := settled st; issued := issued st |}.

(** *** Crash detection *)

(** [s.includes(needle)] and [s.endsWith(suffix)]. *)
Fixpoint includes (needle s : string) : bool :=
  String.prefix needle s ||
  match s with
  | EmptyString => false
  | String _ rest => includes needle rest
  end.

Fixpoint endsWith (suffix s : string) : bool :=
  String.eqb s suffix ||
  match s with
  | EmptyString => false
  | String _ rest => endsWith suffix rest
  end.

(** What the server can see of [CONFIG.crashLogDir]: its entries, and for
    the entry named [f] (the file [path.join(CONFIG.crashLogDir, f)]) the
    modification time in milliseconds and the text.  [None] is a thrown
    exception.  One character of a text is one unit of a JavaScript
    string. *)
Record dirview : Type := DirView {
  readdir : option (list string);
  statMtime : string -> option Z;
  readFile : string -> option string
}.

Record fileInfo : Type := FileInfo {
  f_name : string;
  f_mtime : Z
}.

Definition is_candidate (f : string) : bool :=
  includes "Adobe Premiere Pro" f && endsWith ".crash" f.

(** [.sort((a, b) => b.mtime - a.mtime)]: a stable sort, newest first. *)
Fixpoint insert_desc (x : fileInfo) (l : list fileInfo) : list fileInfo :=
  match l with
  | [] => [x]
  | y :: rest =>
      if f_mtime y <=? f_mtime x then x :: l else y :: insert_desc x rest
  end.

Definition sort_desc (l : list fileInfo) : list fileInfo :=
  foldr insert_desc [] l.

Definition stat_all (d : dirview) (names : list string)
    : option (list fileInfo) :=
  mapM (fun f => m ← statMtime d f; Some (FileInfo f m)) names.

Definition RECENCY_WINDOW : Z := 60000.
Definition CRASH_LOG_BUDGET : nat := 5000.

Definition getLatestCrashLog (d : dirview) (now : Z) : string :=
  match readdir d with
  | None => ""
  | Some entries =>
      match stat_all d (List.filter is_candidate entries) with
      | None => ""
      | Some infos =>
          match sort_desc infos with
          | newest :: _ =>
              if now - RECENCY_WINDOW <? f_mtime newest then
                match readFile d (f_name newest) with
                | Some text => String.substring 0 CRASH_LOG_BUDGET text
                | None => ""
                end
              else ""
          | [] => ""
          end
      end
  end.

(** [result.trim().length > 0] on the output of [pgrep], whose white space
    is ASCII; [None] is the exception [execSync] raises when [pgrep] exits
    non-zero. *)
Definition is_space (c : Ascii.ascii) : bool :=
  let n := Ascii.nat_of_ascii c in
  ((9 <=? n) && (n <=? 13))%nat || (n =? 32)%nat.

Fixpoint blank (s : string) : bool :=
  match s with
  | EmptyString => true
  | String c rest => is_space c && blank rest
  end.

Definition isPremiereRunning (pgrep : option string) : bool :=
  match pgrep with
  | Some out => negb (blank out)
  | None => false
  end.

(** What [checkForCrash] observes when it runs: the process list, the clock
    when the crash time is taken, the crash-report directory and the clock
    when [getLatestCrashLog] compares modification times. *)
Record world : Type := World {
  w_pgrep : option string;
  w_now : Z;
  w_dir : dirview;
  w_now_log : Z
}.

Definition checkForCrash (st : state) (w : world) : state :=
  let isRunning := isPremiereRunning (w_pgrep w) in
  if negb isRunning && (0 <? lastHeartbeat st) then
    {| premiereConnection := premiereConnection st;
       lastHeartbeat := lastHeartbeat st;
       pendingRequests := pendingRequests st;
       requestIdCounter := requestIdCounter st;
       lastCrashTime := w_now w;
       lastCrashLog := getLatestCrashLog (w_dir w) (w_now_log w);
       timers := timers st; nextTimer := nextTimer st;
       nextPromise := nextPromise st;
       outbox := outbox st; settled := settled st; issued := issued st |}
  else st.

(** *** Timers

    A timeout that is still in the table fires once and leaves the table;
    one that was cleared, or never set, does not fire. *)
Definition clear_timer (st : state) (t : nat) : state :=
  {| premiereConnection := premiereConnection st;
     lastHeartbeat := lastHeartbeat st;
     pendingRequests := pendingRequests st;
     requestIdCounter := requestIdCounter st;
     lastCrashTime := lastCrashTime st;
     lastCrashLog := lastCrashLog st;
     timers := delete t (timers st); nextTimer := nextTimer st;
     nextPromise := nextPromise st;
     outbox := outbox st; settled := settled st; issued := issued st |}.

Definition on_timer (st : state) (t : nat) (w : world) : state :=
  match timers st !! t with
  | None => st
  | Some (TimeoutReject requestId promise timeout) =>
      {| premiereConnection := premiereConnection st;
         lastHeartbeat := lastHeartbeat st;
         pendingRequests := delete requestId (pendingRequests st);
         requestIdCounter := requestIdCounter st;
         lastCrashTime := lastCrashTime st;
         lastCrashLog := lastCrashLog st;
         timers := delete t (timers st); nextTimer := nextTimer st;
         nextPromise := nextPromise st;
         outbox := outbox st;
         settled :=
           settled st ++
           [Settlement promise (Rejected (timeout_message timeout))
              (ByTimeout requestId)];
         issued := issued st |}
  | Some CrashCheck => checkForCrash (clear_timer st t) w
  end.

(** *** The event loop *)

Inductive event : Type :=
| EConnect (ws : nat) (now : Z)
| EMessage (data : option value) (now : Z)
| EClose
| ESend (cmd : string) (params : value) (timeout : Z)
| ETimer (t : nat) (w : world).

Definition step (st : state) (e : event) : state :=
  match e with
  | EConnect ws now => on_connection st ws now
  | EMessage data now => on_message st data now
  | EClose => on_close st
  | ESend cmd params timeout => fst (sendToPremmiere st cmd params timeout)
  | ETimer t w => on_timer st t w
  end.

Definition run (st : state) (trace : list event) : state :=
  foldl step st trace.


End Server.

(** ** The dialog handler and the recovery orchestrator *)

Module Recovery.

(** Calls that leave the process: UI scripts, process control, sleeps. *)
Inductive effect : Type :=
| DismissCrashReporter
| DismissRecoveryDialog
| ProcessProbe
| ModalProbe
| WindowProbe
| Pkill
| OpenProject
| Sleep (ms : Z).

(** [dialog-handler.js] keeps the handle of its watcher in
    [dialogWatcherInterval]; [intervals] is the runtime's table of active
    [setInterval] handles and [calls] the log of effects. *)
Record dstate : Type := DState {
  dialogWatcherInterval : option nat;
  intervals : gset nat;
  nextInterval : nat;
  calls : list effect
}.

Definition dinit : dstate :=
  {| dialogWatcherInterval := None; intervals := ∅;
     nextInterval := 0; calls := [] |}.

Definition perform (st : dstate) (es : list effect) : dstate :=
  {| dialogWatcherInterval := dialogWatcherInterval st;
     intervals := intervals st;
     nextInterval := nextInterval st;
     calls := calls st ++ es |}.

Definition startDialogWatcher (st : dstate) : dstate :=
  match dialogWatcherInterval st with
  | Some _ => st
  | None =>
      {| dialogWatcherInterval := Some (nextInterval st);
         intervals := {[nextInterval st]} ∪ intervals st;
         nextInterval := S (nextInterval st);
         calls := calls st |}
  end.

Definition stopDialogWatcher (st : dstate) : dstate :=
  match dialogWatcherInterval st with
  | Some h =>
      {| dialogWatcherInterval := None;
         intervals := intervals st ∖ {[h]};
         nextInterval := nextInterval st;
         calls := calls st |}
  | None => st
  end.

(** The runtime invoking the callback of interval [h]: only an active
    interval fires. *)
Definition on_interval (st : dstate) (h : nat) : dstate :=
  if bool_decide (h ∈ intervals st)
  then perform st [DismissCrashReporter; DismissRecoveryDialog]
  else st.

(** Whatever else runs while an orchestration is suspended at an [await]:
    other callers of the two exported watcher functions, and ticks of
    intervals. *)
Inductive wop : Type :=
| WStart
| WStop
| WTick (h : nat).

Definition apply_wop (st : dstate) (o : wop) : dstate :=
  match o with
  | WStart => startDialogWatcher st
  | WStop => stopDialogWatcher st
  | WTick h => on_interval st h
  end.

Definition interleave (st : dstate) (ops : list wop) : dstate :=
  foldl apply_wop st ops.

(** [await sleep(ms)]: the timer runs, and other tasks run meanwhile. *)
Definition suspend (st : dstate) (ms : Z) (ops : list wop) : dstate :=
  interleave (perform st [Sleep ms]) ops.

(** What one orchestration observes.  Iteration [k] of a polling loop reads
    the clock [1000 + lag k] milliseconds after the previous one (the
    sleep, plus whatever the probes and other tasks took); [r_resumed] is
    what runs between the end of [waitForPremiereReady] and the resumption
    of its caller. *)
Record renv : Type := REnv {
  r_settle : list wop;
  r_process : nat -> bool;
  r_modal : nat -> bool;
  r_window : nat -> bool;
  r_ready_lag : nat -> N;
  r_ready_ops : nat -> list wop;
  r_resumed : list wop;
  r_conn : nat -> bool;
  r_peer_lag : nat -> N;
  r_peer_ops : nat -> list wop
}.

(** The [while] loop of [waitForPremiereReady(maxWaitMs)]; [elapsed] is
    [Date.now() - startTime] at the test of iteration [k]. *)
Equations? readyLoop (env : renv) (maxWaitMs : Z) (k : nat) (elapsed : Z)
    (st : dstate) : dstate * bool
    by wf (Z.to_nat (maxWaitMs - elapsed)) lt :=
  readyLoop env maxWaitMs k elapsed st with Z_lt_dec elapsed maxWaitMs => {
    | right _ => (st, false)
    | left _ with r_process env k => {
      | false =>
          readyLoop env maxWaitMs (S k)
            (elapsed + 1000 + Z.of_N (r_ready_lag env (S k)))
            (suspend (perform st [DismissCrashReporter; ProcessProbe]) 1000
               (r_ready_ops env k))
      | true with r_modal env k => {
        | true =>
            readyLoop env maxWaitMs (S k)
              (elapsed + 1000 + Z.of_N (r_ready_lag env (S k)))
              (suspend
                 (perform st [DismissCrashReporter; ProcessProbe;
                              DismissRecoveryDialog; ModalProbe])
                 1000 (r_ready_ops env k))
        | false with r_window env k => {
          | true =>
              (perform st [DismissCrashReporter; ProcessProbe;
                           DismissRecoveryDialog; ModalProbe; WindowProbe],
               true)
          | false =>
              readyLoop env maxWaitMs (S k)
                (elapsed + 1000 + Z.of_N (r_ready_lag env (S k)))
                (suspend
                   (perform st [DismissCrashReporter; ProcessProbe;
                                DismissRecoveryDialog; ModalProbe;
                                WindowProbe])
                   1000 (r_ready_ops env k)) } } } }.
Proof. all: lia. Qed.

Definition waitForPremiereReady (env : renv) (maxWaitMs : Z) (st : dstate)
    : dstate * bool :=
  readyLoop env maxWaitMs 0 (Z.of_N (r_ready_lag env 0)) st.

Record restartResult : Type := RestartResult {
  rr_success : bool;
  rr_message : string
}.

Definition NOT_READY : string := "Premiere did not become ready within 90s".
Definition RESTARTED : string := "Premiere restarted and CEP panel connected".
Definition NO_PANEL : string :=
  "Premiere started but CEP panel did not connect within 60s. Make sure to open Window > Extensions > MoshBrosh MCP Bridge".

(** The [while] loop of [restartPremiere] that waits for the panel. *)
Equations? peerLoop (env : renv) (k : nat) (elapsed : Z) (st : dstate)
    : dstate * restartResult
    by wf (Z.to_nat (60000 - elapsed)) lt :=
  peerLoop env k elapsed st with Z_lt_dec elapsed 60000 => {
    | right _ => (stopDialogWatcher st, RestartResult false NO_PANEL)
    | left _ with r_conn env k => {
      | true => (stopDialogWatcher st, RestartResult true RESTARTED)
      | false =>
          peerLoop env (S k) (elapsed + 1000 + Z.of_N (r_peer_lag env (S k)))
            (suspend st 1000 (r_peer_ops env k)) } }.
Proof. all: lia. Qed.

(** Stages 1 to 5 of [restartPremiere]: start the watcher, kill the host,
    let things settle, dismiss a lingering crash reporter, reopen the
    project. *)
Definition relaunch (env : renv) (st : dstate) : dstate :=
  let st1 := startDialogWatcher st in
  let st2 := perform st1 [Pkill] in
  let st3 := suspend st2 3000 (r_settle env) in
  perform st3 [DismissCrashReporter; OpenProject].

Definition restartPremiere (env : renv) (st : dstate)
    : dstate * restartResult :=
  let (st5, ready) := waitForPremiereReady env 90000 (relaunch env st) in
  let st6 := interleave st5 (r_resumed env) in
  if negb ready then (stopDialogWatcher st6, RestartResult false NOT_READY)
  else peerLoop env 0 (Z.of_N (r_peer_lag env 0)) st6.

End Recovery.

(** ** The pipeline runner *)

Module Pipeline.

Import Recovery.

(** One entry of [results.steps]; a field that was never assigned is
    [None]. *)
Record stepRecord : Type := StepRecord {
  step : string;
  status : string;
  result : option value;
  waitMs : option Z
}.

(** The object [results] that [runAutonomousTestCycle] returns. *)
Record results : Type := Results {
  steps : list stepRecord;
  success : bool;
  error : option string
}.

(** Operations the runner invokes, in the order it invokes them. *)
Inductive op : Type :=
| OpRestart
| OpSend (cmd : string)
| OpWait (ms : Z)
| OpExists
| OpStat
| OpAnalyze.

(** How an awaited [sendToPremmiere] ends. *)
Inductive awaited : Type :=
| Fulfilled (v : value)
| Failed (message : string).

(** One attempt of the export poll: whether [existsSync] finds the file,
    and what the two [statSync(...).size] reads give ([inl] is the message
    of the exception thrown). *)
Record attempt : Type := Attempt {
  a_exists : bool;
  a_size1 : string + Z;
  a_size2 : string + Z
}.

(** [analyzeExportedVideo] catches everything and returns an object whose
    [success] is a boolean. *)
Record analysis : Type := Analysis {
  an_success : bool;
  an_fields : list (string * value)
}.

Definition analysis_value (a : analysis) : value :=
  VObj (("success", VBool (an_success a)) :: an_fields a).

Definition restart_value (r : restartResult) : value :=
  VObj [("success", VBool (rr_success r)); ("message", VStr (rr_message r))].

Record penv : Type := PEnv {
  e_connected : bool;
  e_recovery : renv;
  e_send : string -> awaited;
  e_export : nat -> attempt;
  e_analysis : analysis
}.

Record pstate : Type := PState {
  ps_results : results;
  ps_ops : list op;
  ps_dialog : dstate
}.

(** Control after a statement: fall through with a value, [return results],
    or an exception on its way to the [catch]. *)
Inductive ctl (A : Type) : Type :=
| Normal (a : A)
| Return
| Throw (message : string).
Arguments Normal {A} a.
Arguments Return {A}.
Arguments Throw {A} message.

Definition M (A : Type) : Type := pstate -> pstate * ctl A.

Definition pure {A} (a : A) : M A := fun s => (s, Normal a).

Definition bind {A B} (m : M A) (f : A -> M B) : M B :=
  fun s =>
    match m s with
    | (s', Normal a) => f a s'
    | (s', Return) => (s', Return)
    | (s', Throw e) => (s', Throw e)
    end.

#[local] Instance M_ret : MRet M := @pure.
#[local] Instance M_bind : MBind M := fun A B f m => bind m f.

Definition return_results : M unit := fun s => (s, Return).
Definition throw {A} (e : string) : M A := fun s => (s, Throw e).

Definition update (f : results -> results) : M unit :=
  fun s => ({| ps_results := f (ps_results s); ps_ops := ps_ops s;
               ps_dialog := ps_dialog s |}, Normal tt).

Definition invoke (o : op) : M unit :=
  fun s => ({| ps_results := ps_results s; ps_ops := ps_ops s ++ [o];
               ps_dialog := ps_dialog s |}, Normal tt).

(** [results.steps.push(r)] *)
Definition push (r : stepRecord) : M unit :=
  update (fun res => {| steps := steps res ++ [r]; success := success res;
                        error := error res |}).

(** [results.steps[results.steps.length - 1]] updated in place *)
Definition on_last (f : stepRecord -> stepRecord) (l : list stepRecord)
    : list stepRecord :=
  match reverse l with
  | [] => l
  | x :: before => reverse before ++ [f x]
  end.

Definition set_last_status (s : string) : M unit :=
  update (fun res =>
    {| steps := on_last (fun r => {| step := step r; status := s;
                                     result := result r;
                                     waitMs := waitMs r |}) (steps res);
       success := success res; error := error res |}).

Definition set_last_result (v : value) : M unit :=
  update (fun res =>
    {| steps := on_last (fun r => {| step := step r; status := status r;
                                     result := Some v;
                                     waitMs := waitMs r |}) (steps res);
       success := success res; error := error res |}).

Definition set_error (e : string) : M unit :=
  update (fun res => {| steps := steps res; success := success res;
                        error := Some e |}).

Definition set_success (b : bool) : M unit :=
  update (fun res => {| steps := steps res; success := b;
                        error := error res |}).

(** Reading [v.k]; a [TypeError] becomes an exception. *)
Definition prop (v : value) (k : string) : M value :=
  match get v k with
  | inl e => throw e
  | inr x => pure x
  end.

Definition await_send (env : penv) (cmd : string) : M value :=
  invoke (OpSend cmd) ;;
  match e_send env cmd with
  | Fulfilled v => pure v
  | Failed e => throw e
  end.

Definition call_restart (env : penv) : M restartResult :=
  fun s =>
    let (d, r) := restartPremiere (e_recovery env) (ps_dialog s) in
    ({| ps_results := ps_results s; ps_ops := ps_ops s; ps_dialog := d |},
     Normal r).

Definition await_restart (env : penv) : M restartResult :=
  invoke OpRestart ;; call_restart env.

Definition starting (name : string) : stepRecord :=
  {| step := name; status := "starting"; result := None; waitMs := None |}.

Definition outcome_status (ok : bool) : string :=
  if ok then "success" else "failed".

(** Steps 2, 3 and 5 are the same statements up to the step name, the
    command and the prefix of the error text. *)
Definition remote_step (env : penv) (name cmd prefix : string) : M unit :=
  push (starting name) ;;
  r ← await_send env cmd;
  ok ← prop r "success";
  set_last_status (outcome_status (truthy ok)) ;;
  set_last_result r ;;
  ok' ← prop r "success";
  if negb (truthy ok') then
    e ← prop r "error";
    set_error (prefix +:+ to_string e) ;;
    return_results
  else pure tt.

Definition stat_size (x : string + Z) : M Z :=
  invoke OpStat ;;
  match x with
  | inl e => throw e
  | inr n => pure n
  end.

(** The [for] loop of step 6, from iteration [i] with [n] iterations left;
    the result is [exportReady]. *)
Fixpoint export_poll (env : penv) (i n : nat) : M bool :=
  match n with
  | O => pure false
  | S n' =>
      invoke OpExists ;;
      stable ←
        (if a_exists (e_export env i) then
           size1 ← stat_size (a_size1 (e_export env i));
           invoke (OpWait 2000) ;;
           size2 ← stat_size (a_size2 (e_export env i));
           pure ((size1 =? size2) && (0 <? size1))
         else pure false);
      if (stable : bool) then pure true
      else invoke (OpWait 1000) ;; export_poll env (S i) n'
  end.

Definition EXPORT_ATTEMPTS : nat := 60.
Definition effectProcessingWaitMs : Z := 20000.
Definition EXPORT_NOT_READY : string := "Export file not ready after 60s".

(** Step 1: make sure the host runs and the panel is connected. *)
Definition ensure_connected (env : penv) : M unit :=
  if negb (e_connected env) then
    push (starting "restart_premiere") ;;
    r ← await_restart env;
    set_last_status (outcome_status (rr_success r)) ;;
    set_last_result (restart_value r) ;;
    if negb (rr_success r) then
      set_error "Failed to start Premiere" ;;
      return_results
    else pure tt
  else pure tt.

(** Step 4: give the effect time to process. *)
Definition wait_for_processing : M unit :=
  push {| step := "wait_for_processing"; status := "starting";
          result := None; waitMs := Some effectProcessingWaitMs |} ;;
  invoke (OpWait effectProcessingWaitMs) ;;
  set_last_status "success".

(** Step 6: wait for the exported file, then analyse it. *)
Definition analyze_export (env : penv) : M unit :=
  push (starting "analyze_export") ;;
  exportReady ← export_poll env 0 EXPORT_ATTEMPTS;
  if negb exportReady then
    set_last_status "failed" ;;
    set_error EXPORT_NOT_READY ;;
    return_results
  else
    invoke OpAnalyze ;;
    set_last_status (outcome_status (an_success (e_analysis env))) ;;
    set_last_result (analysis_value (e_analysis env)) ;;
    set_success (an_success (e_analysis env)) ;;
    return_results.

(** The body of the [try] block, step by step. *)
Definition cycle (env : penv) : M unit :=
  ensure_connected env ;;
  remote_step env "open_project" "open_test_project"
    "Failed to open project: " ;;
  remote_step env "apply_effect" "apply_effect"
    "Failed to apply effect: " ;;
  wait_for_processing ;;
  remote_step env "export_sequence" "export_sequence"
    "Failed to export: " ;;
  analyze_export env.

Definition start (d : dstate) : pstate :=
  {| ps_results := {| steps := []; success := false; error := None |};
     ps_ops := []; ps_dialog := d |}.

(** The [catch] block stores the message of whatever was thrown; every
    path returns [results]. *)
Definition catch (r : pstate * ctl unit) : pstate :=
  match r with
  | (s, Throw e) =>
      {| ps_results := {| steps := steps (ps_results s);
                          success := success (ps_results s);
                          error := Some e |};
         ps_ops := ps_ops s; ps_dialog := ps_dialog s |}
  | (s, _) => s
  end.

Definition run_cycle (env : penv) (d : dstate) : pstate :=
  catch (cycle env (start d)).

Definition runAutonomousTestCycle (env : penv) (d : dstate) : results :=
  ps_results (run_cycle env d).

End Pipeline.

(** ** Concrete runs used below *)

Module Scenario.

Import Server.

Definition late_response : value :=
  VObj [("type", VStr "response"); ("requestId", VNum 1);
        ("result", VObj [("success", VBool true)]); ("error", VNull)].

Definition one_pending : state :=
  run init [EConnect 7 1000; ESend "apply_effect" (VObj []) 30000].

Definition empty_dir : dirview :=
  {| readdir := Some []; statMtime := fun _ => None;
     readFile := fun _ => None |}.

(** The host process is there. *)
Definition world_quiet : world :=
  {| w_pgrep := Some "4242"; w_now := 2000; w_dir := empty_dir;
     w_now_log := 2001 |}.

(** [pgrep] finds nothing. *)
Definition world_gone : world :=
  {| w_pgrep := None; w_now := 2000; w_dir := empty_dir;
     w_now_log := 2001 |}.



(** A peer attaches, sends no message at all, and its socket closes; a
    second later the crash check finds no host process. *)
Definition silent_peer_lost : list event :=
  [EConnect 7 1000; EClose; ETimer 0 world_gone].

Definition is_heartbeat (e : event) : bool :=
  match e with
  | EMessage (Some msg) _ =>
      match get msg "type" with
      | inr ty => is_str ty "heartbeat"
      | inl _ => false
      end
  | _ => false
  end.

(** A crash-report directory: an old report, a newer one, and a file that
    is newer still but is no crash report of the host. *)
Definition reports_dir : dirview :=
  {| readdir := Some ["Adobe Premiere Pro 2025-10-30-old.crash";
                      "Adobe Premiere Pro 2025-11-02-new.crash";
                      "Finder 2025-11-02.crash"];
     statMtime := fun f =>
       if String.eqb f "Adobe Premiere Pro 2025-10-30-old.crash"
       then Some 100000
       else if String.eqb f "Adobe Premiere Pro 2025-11-02-new.crash"
       then Some 900000
       else Some 999999;
     readFile := fun f =>
       if String.eqb f "Adobe Premiere Pro 2025-10-30-old.crash"
       then Some "old crash"
       else if String.eqb f "Adobe Premiere Pro 2025-11-02-new.crash"
       then Some "new crash"
       else Some "finder crash" |}.



(** *** Hosts for the recovery orchestrator *)

Import Recovery.

(** A host that never shows up in the process list, and no panel. *)
Definition never_ready : renv :=
  {| r_settle := [WTick 0]; r_process := fun _ => false;
     r_modal := fun _ => false; r_window := fun _ => false;
     r_ready_lag := fun _ => 0%N; r_ready_ops := fun _ => [WTick 0];
     r_resumed := [];
     r_conn := fun _ => false; r_peer_lag := fun _ => 0%N;
     r_peer_ops := fun _ => [] |}.

(** A host that is ready at the third poll and whose panel connects at the
    second poll. *)
Definition ready_and_connected : renv :=
  {| r_settle := []; r_process := fun k => (2 <=? k)%nat;
     r_modal := fun _ => false; r_window := fun _ => true;
     r_ready_lag := fun _ => 40%N; r_ready_ops := fun _ => [];
     r_resumed := [];
     r_conn := fun k => (1 <=? k)%nat; r_peer_lag := fun _ => 5%N;
     r_peer_ops := fun _ => [] |}.

(** *** Runs of the pipeline *)

Import Pipeline.

Definition ok_result : value := VObj [("success", VBool true)].


Definition growing (i : nat) : attempt :=
  {| a_exists := true; a_size1 := inr (1000 * Z.of_nat i + 1000);
     a_size2 := inr (1000 * Z.of_nat i + 1500) |}.

Definition stable_at_third (i : nat) : attempt :=
  if (i <? 2)%nat then growing i
  else {| a_exists := true; a_size1 := inr 52000; a_size2 := inr 52000 |}.

Definition good_analysis : analysis :=
  {| an_success := true;
     an_fields := [("message", VStr "Mosh effect is visible in export")] |}.



(** Every step works. *)
Definition all_good : penv :=
  {| e_connected := true; e_recovery := never_ready;
     e_send := fun _ => Fulfilled ok_result;
     e_export := stable_at_third; e_analysis := good_analysis |}.

End Scenario.

(** ** Auxiliary notions for the statements *)

Module Aux.

Import Server.

(** The head of a list of files is a newest one. *)
Definition newest_first (l : list fileInfo) : Prop :=
  match l with
  | [] => True
  | h :: _ => forall g, g ∈ l -> f_mtime g <= f_mtime h
  end.






(** The runtime's table of intervals holds the watcher's handle and
    nothing else. *)
Definition watcher_ok (st : Recovery.dstate) : Prop :=
  Recovery.intervals st
  = match Recovery.dialogWatcherInterval st with
    | Some h => {[h]}
    | None => ∅
    end.

Definition watcher_stopped (st : Recovery.dstate) : Prop :=
  Recovery.dialogWatcherInterval st = None /\ Recovery.intervals st = ∅.

(** *** The pipeline report *)

Import Pipeline.

(** The state after more operations were invoked. *)
Definition emit (s : pstate) (ops : list op) : pstate :=
  {| ps_results := ps_results s; ps_ops := ps_ops s ++ ops;
     ps_dialog := ps_dialog s |}.

(** A state of the runner, field by field. *)
Definition st_of (l : list stepRecord) (ok : bool) (e : option string)
    (ops : list op) (d : Recovery.dstate) : pstate :=
  {| ps_results := {| steps := l; success := ok; error := e |};
     ps_ops := ops; ps_dialog := d |}.

(** The two size samples of an attempt were taken, are equal and are
    greater than zero. *)
Definition stable (a : attempt) : Prop :=
  a_exists a = true /\
  exists n, a_size1 a = inr n /\ a_size2 a = inr n /\ 0 < n.

(** The attempt ran without an exception: the file was not there, or both
    sizes were read. *)
Definition sampled (a : attempt) : Prop :=
  a_exists a = false \/
  exists n1 n2, a_size1 a = inr n1 /\ a_size2 a = inr n2.

Definition poll_op (o : op) : Prop :=
  o = OpExists \/ o = OpStat \/ o = OpWait 2000 \/ o = OpWait 1000.

(** The step an operation belongs to. *)
Definition step_of (o : op) : string :=
  match o with
  | OpRestart => "restart_premiere"
  | OpSend cmd =>
      if String.eqb cmd "open_test_project" then "open_project" else cmd
  | OpWait ms =>
      if ms =? effectProcessingWaitMs then "wait_for_processing"
      else "analyze_export"
  | OpExists | OpStat | OpAnalyze => "analyze_export"
  end.

(** The steps of a run, in order. *)
Definition plan (env : penv) : list string :=
  (if e_connected env then [] else ["restart_premiere"]) ++
  ["open_project"; "apply_effect"; "wait_for_processing";
   "export_sequence"; "analyze_export"].

(** The text [results.error] holds after step [s] failed before the
    analysis: fixed for the restart and for the export poll, and for a
    remote step the step's own prefix followed by the error text of its
    result. *)
Definition failure_text (s : stepRecord) : option string :=
  if String.eqb (step s) "restart_premiere"
  then Some "Failed to start Premiere"
  else if String.eqb (step s) "analyze_export"
  then Some EXPORT_NOT_READY
  else
    match result s with
    | Some v =>
        match get v "error" with
        | inr e =>
            Some ((if String.eqb (step s) "open_project"
                   then "Failed to open project: "
                   else if String.eqb (step s) "apply_effect"
                   then "Failed to apply effect: "
                   else "Failed to export: ") +:+ to_string e)
        | inl _ => None
        end
    | None => None
    end.



(** What the report of a finished run says about a failed step. *)
Definition report_ok (env : penv) (R : pstate) : Prop :=
  forall k s,
    steps (ps_results R) !! k = Some s ->
    status s = "failed" ->
    length (steps (ps_results R)) = S k /\
    success (ps_results R) = false /\
    (step <$> steps (ps_results R)) `prefix_of` plan env /\
    Forall (fun o => step_of o ∈ (step <$> steps (ps_results R)))
      (ps_ops R) /\
    (forall s', s' ∈ steps (ps_results R) -> status s' <> "pending") /\
    (OpAnalyze ∉ ps_ops R -> error (ps_results R) = failure_text s).


End Aux.

(** ** Tool handlers of the server that work on text *)

Module Tools.

Import Server.

(** [a || b] on strings: the empty string is the only falsy one. *)
Definition or_else (a b : string) : string :=
  if String.eqb a "" then b else a.

Definition NO_CRASH_LOGS : string := "(no recent crash logs found)".

(** The handler of the tool [get_last_crash_log]: the text it returns. *)
Definition get_last_crash_log (st : state) (d : dirview) (now : Z) : string :=
  or_else (or_else (getLatestCrashLog d now) (lastCrashLog st)) NO_CRASH_LOGS.

(** *** The plugin's debug log *)

Definition newline : Ascii.ascii := Ascii.ascii_of_nat 10.

(** [s.split(sep)] for a separator of one character. *)
Fixpoint split (sep : Ascii.ascii) (s : string) : list string :=
  match s with
  | EmptyString => [EmptyString]
  | String c rest =>
      if Ascii.eqb c sep then EmptyString :: split sep rest
      else
        match split sep rest with
        | first :: others => String c first :: others
        | [] => [String c EmptyString]
        end
  end.

(** [l.join(sep)] *)
Fixpoint join (sep : Ascii.ascii) (l : list string) : string :=
  match l with
  | [] => EmptyString
  | [x] => x
  | x :: rest => x +:+ String sep (join sep rest)
  end.

(** [l.slice(start)]: a negative start counts from the end. *)
Definition slice_from {A} (start : Z) (l : list A) : list A :=
  let len := Z.of_nat (length l) in
  let k := if start <? 0 then Z.max (len + start) 0 else Z.min start len in
  drop (Z.to_nat k) l.

(** What the server finds at [CONFIG.pluginDebugLog]: nothing, a file it
    cannot read ([readFileSync] throws with this message), or text. *)
Inductive logFile : Type :=
| LogMissing
| LogUnreadable (message : string)
| LogText (content : string).

Record debugLog : Type := DebugLog {
  dl_log : string;
  dl_lines : nat
}.

Definition NO_DEBUG_LOG : string := "(no debug log file found)".

(** [getPluginDebugLog(lines)], for an integer [lines]. *)
Definition getPluginDebugLog (file : logFile) (lines : Z) : debugLog :=
  match file with
  | LogMissing => DebugLog NO_DEBUG_LOG 0
  | LogUnreadable message => DebugLog ("Error reading log: " +:+ message) 0
  | LogText content =>
      let allLines := split newline content in
      DebugLog (join newline (slice_from (- lines) allLines))
        (length allLines)
  end.

(** *** Editing a source file *)

(** The first occurrence of [needle] in [s]: what is before it and what is
    after it. *)
Fixpoint find_first (needle s : string) : option (string * string) :=
  if String.prefix needle s
  then Some (EmptyString,
             String.substring (String.length needle)
               (String.length s - String.length needle) s)
  else
    match s with
    | EmptyString => None
    | String c rest =>
        match find_first needle rest with
        | Some (before, after) => Some (String c before, after)
        | None => None
        end
    end.

Definition dollar : Ascii.ascii := Ascii.ascii_of_nat 36.
Definition ampersand : Ascii.ascii := Ascii.ascii_of_nat 38.
Definition backquote : Ascii.ascii := Ascii.ascii_of_nat 96.
Definition quote : Ascii.ascii := Ascii.ascii_of_nat 39.

(** The replacement text of [s.replace(pattern, replacement)] for a string
    pattern, which has no captures: ["$$"] stands for a dollar sign, ["$&"]
    for the matched text, ["$`"] for the text before the match and ["$'"]
    for the text after it; any other dollar sign is kept. *)
Fixpoint expand (matched before after replacement : string) : string :=
  match replacement with
  | EmptyString => EmptyString
  | String c rest =>
      if Ascii.eqb c dollar then
        match rest with
        | String c' rest' =>
            if Ascii.eqb c' dollar then
              String dollar (expand matched before after rest')
            else if Ascii.eqb c' ampersand then
              matched +:+ expand matched before after rest'
            else if Ascii.eqb c' backquote then
              before +:+ expand matched before after rest'
            else if Ascii.eqb c' quote then
              after +:+ expand matched before after rest'
            else String c (expand matched before after rest)
        | EmptyString => String c EmptyString
        end
      else String c (expand matched before after rest)
  end.

(** [s.replace(pattern, replacement)] with two strings: the first
    occurrence only. *)
Definition replace_first (pattern replacement s : string) : string :=
  match find_first pattern s with
  | Some (before, after) =>
      before +:+ expand pattern before after replacement +:+ after
  | None => s
  end.

(** The file named by [args.file]: what [readFileSync] gives ([inl] is the
    message of the exception it throws) and whether [writeFileSync]
    throws. *)
Record sourceFile : Type := SourceFile {
  sf_read : string + string;
  sf_write_error : option string
}.

Inductive editReply : Type :=
| EditDone
| EditNotFound
| EditFailed (message : string).

(** The handler of the tool [edit_source_file], for string arguments: its
    reply, and the text it passes to [writeFileSync], if it gets there. *)
Definition edit_source_file (file : sourceFile) (old_text new_text : string)
    : editReply * option string :=
  match sf_read file with
  | inl message => (EditFailed message, None)
  | inr content =>
      if negb (includes old_text content) then (EditNotFound, None)
      else
        let content' := replace_first old_text new_text content in
        match sf_write_error file with
        | Some message => (EditFailed message, Some content')
        | None => (EditDone, Some content')
        end
  end.


End Tools.
(** ** The panel: the server's peer inside the host

    The CEP panel is a page with one script.  Its module variables become
    a record; the sockets it created, its timers and its pending
    [evalScript] calls are the runtime's part of the state; every handler
    the runtime can invoke becomes an event.  Writing to the log element
    and to the status element is left out, and so are the three test
    buttons and [autoSetupProject], which nothing calls. *)

Module Panel.

Inductive readyState : Type := CONNECTING | OPEN | CLOSING | CLOSED.

(** A call of [csInterface.evalScript] made by [handleMessage] whose
    callback has not run yet; [handleMessage] is suspended on it and will
    answer the request [ev_requestId]. *)
Record evaluation : Type := Evaluation {
  ev_script : string;
  ev_requestId : value
}.

(** A frame written to a socket: the object that was serialised. *)
Record frame : Type := Frame {
  f_socket : nat;
  f_data : value
}.

(** [csInterface] records whether the variable has been assigned. *)
Record state : Type := State {
  (* module variables *)
  ws : option nat;
  csInterface : bool;
  heartbeatTimer : option nat;
  reconnectTimer : option nat;
  autoSetupDone : bool;
  (* runtime: the sockets this page created, active intervals, pending
     timeouts, pending evaluations *)
  sockets : gmap nat readyState;
  nextSocket : nat;
  intervals : gset nat;
  timeouts : gset nat;
  nextTimer : nat;
  evaluations : gmap nat evaluation;
  nextEvaluation : nat;
  (* observation *)
  sent : list frame
}.

Definition init : state :=
  {| ws := None; csInterface := false; heartbeatTimer := None;
     reconnectTimer := None; autoSetupDone := false;
     sockets := ∅; nextSocket := 0; intervals := ∅; timeouts := ∅;
     nextTimer := 0; evaluations := ∅; nextEvaluation := 0; sent := [] |}.

(** [ws && ws.readyState === WebSocket.OPEN]: the socket, if so. *)
Definition ws_open (st : state) : option nat :=
  match ws st with
  | Some s =>
      match sockets st !! s with
      | Some OPEN => Some s
      | _ => None
      end
  | None => None
  end.

(** [ws.send(JSON.stringify(v))] under the guard that [ws] is open. *)
Definition send_if_open (st : state) (v : value) : state :=
  match ws_open st with
  | Some s =>
      {| ws := ws st; csInterface := csInterface st;
         heartbeatTimer := heartbeatTimer st;
         reconnectTimer := reconnectTimer st;
         autoSetupDone := autoSetupDone st;
         sockets := sockets st; nextSocket := nextSocket st;
         intervals := intervals st; timeouts := timeouts st;
         nextTimer := nextTimer st;
         evaluations := evaluations st;
         nextEvaluation := nextEvaluation st;
         sent := sent st ++ [Frame s v] |}
  | None => st
  end.

Definition scheduleReconnect (st : state) : state :=
  match reconnectTimer st with
  | Some _ => st
  | None =>
      {| ws := ws st; csInterface := csInterface st;
         heartbeatTimer := heartbeatTimer st;
         reconnectTimer := Some (nextTimer st);
         autoSetupDone := autoSetupDone st;
         sockets := sockets st; nextSocket := nextSocket st;
         intervals := intervals st;
         timeouts := {[nextTimer st]} ∪ timeouts st;
         nextTimer := S (nextTimer st);
         evaluations := evaluations st;
         nextEvaluation := nextEvaluation st;
         sent := sent st |}
  end.

Definition stopHeartbeat (st : state) : state :=
  match heartbeatTimer st with
  | Some t =>
      {| ws := ws st; csInterface := csInterface st;
         heartbeatTimer := None;
         reconnectTimer := reconnectTimer st;
         autoSetupDone := autoSetupDone st;
         sockets := sockets st; nextSocket := nextSocket st;
         intervals := intervals st ∖ {[t]}; timeouts := timeouts st;
         nextTimer := nextTimer st;
         evaluations := evaluations st;
         nextEvaluation := nextEvaluation st;
         sent := sent st |}
  | None => st
  end.

Definition startHeartbeat (st : state) : state :=
  let st := stopHeartbeat st in
  {| ws := ws st; csInterface := csInterface st;
     heartbeatTimer := Some (nextTimer st);
     reconnectTimer := reconnectTimer st;
     autoSetupDone := autoSetupDone st;
     sockets := sockets st; nextSocket := nextSocket st;
     intervals := {[nextTimer st]} ∪ intervals st; timeouts := timeouts st;
     nextTimer := S (nextTimer st);
     evaluations := evaluations st;
     nextEvaluation := nextEvaluation st;
     sent := sent st |}.

(** [connect()]; [throws] says whether [new WebSocket(url)] throws, in
    which case [ws] keeps its value and the [catch] schedules a
    reconnect. *)
Definition connect (st : state) (throws : bool) : state :=
  match ws_open st with
  | Some _ => st
  | None =>
      if throws then scheduleReconnect st
      else
        {| ws := Some (nextSocket st); csInterface := csInterface st;
           heartbeatTimer := heartbeatTimer st;
           reconnectTimer := reconnectTimer st;
           autoSetupDone := autoSetupDone st;
           sockets := <[nextSocket st := CONNECTING]> (sockets st);
           nextSocket := S (nextSocket st);
           intervals := intervals st; timeouts := timeouts st;
           nextTimer := nextTimer st;
           evaluations := evaluations st;
           nextEvaluation := nextEvaluation st;
           sent := sent st |}
  end.

(** The runtime moves socket [s] to another ready state. *)
Definition mark (st : state) (s : nat) (rs : readyState) : state :=
  {| ws := ws st; csInterface := csInterface st;
     heartbeatTimer := heartbeatTimer st;
     reconnectTimer := reconnectTimer st;
     autoSetupDone := autoSetupDone st;
     sockets := <[s := rs]> (sockets st); nextSocket := nextSocket st;
     intervals := intervals st; timeouts := timeouts st;
     nextTimer := nextTimer st;
     evaluations := evaluations st;
     nextEvaluation := nextEvaluation st;
     sent := sent st |}.

Definition reset_autoSetup (st : state) : state :=
  {| ws := ws st; csInterface := csInterface st;
     heartbeatTimer := heartbeatTimer st;
     reconnectTimer := reconnectTimer st;
     autoSetupDone := false;
     sockets := sockets st; nextSocket := nextSocket st;
     intervals := intervals st; timeouts := timeouts st;
     nextTimer := nextTimer st;
     evaluations := evaluations st;
     nextEvaluation := nextEvaluation st;
     sent := sent st |}.

(** [ws.close()]: a socket that is connecting or open starts closing. *)
Definition close_socket (st : state) (s : nat) : state :=
  match sockets st !! s with
  | Some CONNECTING | Some OPEN => mark st s CLOSING
  | _ => st
  end.

(** [reconnect()], the handler of the panel's button. *)
Definition reconnect (st : state) (throws : bool) : state :=
  let st1 := match ws st with
             | Some s => close_socket st s
             | None => st
             end in
  connect (reset_autoSetup st1) throws.

(** *** Commands *)

Definition HEARTBEAT : value := VObj [("type", VStr "heartbeat")].

(** The object [sendResponse] serialises. *)
Definition response (requestId result error : value) : value :=
  VObj [("type", VStr "response"); ("requestId", requestId);
        ("result", result); ("error", error)].

Definition sendResponse (st : state) (requestId result error : value)
    : state :=
  send_if_open st (response requestId result error).

Definition dquote : string := String (Ascii.ascii_of_nat 34) EmptyString.

(** [a || b] *)
Definition or_value (a b : value) : value := if truthy a then a else b.

(** [executeCommand] up to its call of [evalScript]: the script it hands
    to the host, or the message of the exception it throws. *)
Definition executeCommand (command params : value) : string + string :=
  if is_str command "open_test_project" then inr "checkAndSetupProject()"
  else if is_str command "get_project_info" then inr "getProjectInfo()"
  else if is_str command "apply_effect" then inr "applyMoshBroshEffect()"
  else if is_str command "render_frame" then
    match get params "frame" with
    | inl e => inl e
    | inr frameNum =>
        inr ("renderFrameToFile(" +:+ to_string frameNum +:+ ")")
    end
  else if is_str command "set_effect_param" then
    match get params "param", get params "value" with
    | inr param, inr v =>
        inr ("setMoshBroshParam(" +:+ dquote +:+ to_string param +:+ dquote
             +:+ ", " +:+ to_string v +:+ ")")
    | inl e, _ => inl e
    | _, inl e => inl e
    end
  else if is_str command "get_effect_params" then inr "getMoshBroshParams()"
  else if is_str command "render_frame_range" then
    match get params "start", get params "end", get params "step" with
    | inr start, inr stop, inr step =>
        inr ("renderFrameRange(" +:+ to_string start +:+ ", "
             +:+ to_string stop +:+ ", "
             +:+ to_string (or_value step (VNum 1)) +:+ ")")
    | inl e, _, _ => inl e
    | _, inl e, _ => inl e
    | _, _, inl e => inl e
    end
  else if is_str command "get_source_frame" then
    match get params "frame" with
    | inl e => inl e
    | inr frameNum => inr ("getSourceFrame(" +:+ to_string frameNum +:+ ")")
    end
  else if is_str command "compare_frames" then
    match get params "frame_a", get params "frame_b" with
    | inr frameA, inr frameB =>
        inr ("compareFrames(" +:+ to_string frameA +:+ ", "
             +:+ to_string frameB +:+ ")")
    | inl e, _ => inl e
    | _, inl e => inl e
    end
  else if is_str command "export_sequence" then inr "exportSequence()"
  else if is_str command "refresh_timeline" then inr "refreshTimeline()"
  else if is_str command "save_project" then inr "saveProject()"
  else inl ("Unknown command: " +:+ to_string command).

(** What the promise of [evalScript] settles with when the host calls back
    with [result]; [parsed] is what [JSON.parse(result)] gives, [None]
    when it throws.  [inl] is the message of the rejection. *)
Definition evalScript_outcome (result : string) (parsed : option value)
    : string + value :=
  if String.eqb result "EvalScript error." then inl "ExtendScript error"
  else
    match parsed with
    | Some v => inr v
    | None => inr (VStr result)
    end.

Definition NO_INTERFACE : string :=
  "Cannot read properties of null (reading 'evalScript')".

(** [csInterface.evalScript(script, callback)] called for a request: the
    call is pending until the host calls back.  Before [csInterface] is
    assigned the call throws, and [handleMessage] answers at once. *)
Definition evalScript (st : state) (script : string) (requestId : value)
    : state :=
  if csInterface st then
    {| ws := ws st; csInterface := csInterface st;
       heartbeatTimer := heartbeatTimer st;
       reconnectTimer := reconnectTimer st;
       autoSetupDone := autoSetupDone st;
       sockets := sockets st; nextSocket := nextSocket st;
       intervals := intervals st; timeouts := timeouts st;
       nextTimer := nextTimer st;
       evaluations :=
         <[nextEvaluation st := Evaluation script requestId]>
           (evaluations st);
       nextEvaluation := S (nextEvaluation st);
       sent := sent st |}
  else sendResponse st requestId VNull (VStr NO_INTERFACE).

(** [handleMessage(data)] up to its first suspension; [data] is [None]
    when [JSON.parse] throws.  The outer [catch] only logs. *)
Definition handleMessage (st : state) (data : option value) : state :=
  match data with
  | None => st
  | Some msg =>
      match get msg "type" with
      | inl _ => st
      | inr ty =>
          if negb (is_str ty "command") then st
          else
            match get msg "requestId", get msg "command",
                  get msg "params" with
            | inr requestId, inr command, inr params =>
                match executeCommand command params with
                | inl e => sendResponse st requestId VNull (VStr e)
                | inr script => evalScript st script requestId
                end
            | _, _, _ => st
            end
      end
  end.

(** The host calls back for evaluation [k]: [handleMessage] resumes and
    answers. *)
Definition on_evaluated (st : state) (k : nat) (result : string)
    (parsed : option value) : state :=
  match evaluations st !! k with
  | None => st
  | Some ev =>
      let st1 :=
        {| ws := ws st; csInterface := csInterface st;
           heartbeatTimer := heartbeatTimer st;
           reconnectTimer := reconnectTimer st;
           autoSetupDone := autoSetupDone st;
           sockets := sockets st; nextSocket := nextSocket st;
           intervals := intervals st; timeouts := timeouts st;
           nextTimer := nextTimer st;
           evaluations := delete k (evaluations st);
           nextEvaluation := nextEvaluation st;
           sent := sent st |} in
      match evalScript_outcome result parsed with
      | inr v => sendResponse st1 (ev_requestId ev) v VNull
      | inl e => sendResponse st1 (ev_requestId ev) VNull (VStr e)
      end
  end.

(** *** Handlers of the socket and of the timers *)

(** [ws.onopen] of socket [s]. *)
Definition on_open (st : state) (s : nat) : state :=
  match sockets st !! s with
  | Some CONNECTING => startHeartbeat (mark st s OPEN)
  | _ => st
  end.

(** [ws.onclose] of socket [s]. *)
Definition on_close (st : state) (s : nat) : state :=
  match sockets st !! s with
  | Some CONNECTING | Some OPEN | Some CLOSING =>
      scheduleReconnect (reset_autoSetup (stopHeartbeat (mark st s CLOSED)))
  | _ => st
  end.

(** [ws.onmessage] of socket [s]. *)
Definition on_message (st : state) (s : nat) (data : option value) : state :=
  match sockets st !! s with
  | Some OPEN | Some CLOSING => handleMessage st data
  | _ => st
  end.

(** The callback of the reconnect timeout [t]. *)
Definition on_timeout (st : state) (t : nat) (throws : bool) : state :=
  if bool_decide (t ∈ timeouts st) then
    connect
      {| ws := ws st; csInterface := csInterface st;
         heartbeatTimer := heartbeatTimer st;
         reconnectTimer := None;
         autoSetupDone := autoSetupDone st;
         sockets := sockets st; nextSocket := nextSocket st;
         intervals := intervals st; timeouts := timeouts st ∖ {[t]};
         nextTimer := nextTimer st;
         evaluations := evaluations st;
         nextEvaluation := nextEvaluation st;
         sent := sent st |}
      throws
  else st.

(** The callback of the heartbeat interval [t]. *)
Definition on_interval (st : state) (t : nat) : state :=
  if bool_decide (t ∈ intervals st) then send_if_open st HEARTBEAT else st.

(** The handler of [DOMContentLoaded]. *)
Definition on_load (st : state) (throws : bool) : state :=
  connect
    {| ws := ws st; csInterface := true;
       heartbeatTimer := heartbeatTimer st;
       reconnectTimer := reconnectTimer st;
       autoSetupDone := autoSetupDone st;
       sockets := sockets st; nextSocket := nextSocket st;
       intervals := intervals st; timeouts := timeouts st;
       nextTimer := nextTimer st;
       evaluations := evaluations st;
       nextEvaluation := nextEvaluation st;
       sent := sent st |}
    throws.

Inductive event : Type :=
| PLoad (throws : bool)
| POpen (s : nat)
| PClose (s : nat)
| PMessage (s : nat) (data : option value)
| PTimeout (t : nat) (throws : bool)
| PInterval (t : nat)
| PEvaluated (k : nat) (result : string) (parsed : option value)
| PReconnect (throws : bool).

Definition step (st : state) (e : event) : state :=
  match e with
  | PLoad throws => on_load st throws
  | POpen s => on_open st s
  | PClose s => on_close st s
  | PMessage s data => on_message st s data
  | PTimeout t throws => on_timeout st t throws
  | PInterval t => on_interval st t
  | PEvaluated k result parsed => on_evaluated st k result parsed
  | PReconnect throws => reconnect st throws
  end.

Definition run (st : state) (trace : list event) : state :=
  foldl step st trace.

End Panel.


(** ** Further notions for the statements *)

Module Notions.

Import Server.

(** The character [c] occurs in [s]. *)
Fixpoint has_char (c : Ascii.ascii) (s : string) : bool :=
  match s with
  | EmptyString => false
  | String c' rest => Ascii.eqb c' c || has_char c rest
  end.

Fixpoint count_char (c : Ascii.ascii) (s : string) : nat :=
  match s with
  | EmptyString => 0
  | String c' rest =>
      ((if Ascii.eqb c' c then 1 else 0) + count_char c rest)%nat
  end.

(** No later crash check of the run finds the host process gone. *)
Definition no_crash_seen (e : event) : Prop :=
  match e with
  | ETimer _ w => isPremiereRunning (w_pgrep w) = true
  | _ => True
  end.


(** The host is gone at the check and an in-window crash report is there. *)
Definition world_crashed : world :=
  {| w_pgrep := None; w_now := 940000; w_dir := Scenario.reports_dir;
     w_now_log := 950000 |}.

Definition three_lines : string :=
  "first" +:+ String Tools.newline ("second" +:+ String Tools.newline "third").

(** A source file that can be read and written. *)
Definition source_with (content : string) : Tools.sourceFile :=
  {| Tools.sf_read := inr content; Tools.sf_write_error := None |}.

(** *** Polling loops *)

Import Recovery.

(** [Date.now() - startTime] at the test of poll [j] of a loop whose poll
    [k] read [e]. *)
Fixpoint elapsed_from (lag : nat -> N) (k : nat) (e : Z) (j : nat) : Z :=
  match j with
  | O => e
  | S j' => elapsed_from lag (S k) (e + 1000 + Z.of_N (lag (S k))) j'
  end.

(** The clock of the two loops at their poll [j], counted from the start
    of the loop. *)
Definition ready_elapsed (env : renv) (j : nat) : Z :=
  elapsed_from (r_ready_lag env) 0 (Z.of_N (r_ready_lag env 0)) j.

Definition peer_elapsed (env : renv) (j : nat) : Z :=
  elapsed_from (r_peer_lag env) 0 (Z.of_N (r_peer_lag env 0)) j.

(** Poll [j] sees the host process, no modal dialog and a main window. *)
Definition ready_at (env : renv) (j : nat) : bool :=
  r_process env j && negb (r_modal env j) && r_window env j.

Definition is_probe (e : effect) : bool :=
  match e with
  | ProcessProbe => true
  | _ => false
  end.

(** The number of process probes in a log of effects. *)
Definition probes (l : list effect) : nat :=
  length (List.filter is_probe l).

(** Neither a kill of the host nor an opening of the project. *)
Definition quiet (e : effect) : Prop := e <> Pkill /\ e <> OpenProject.

(** How many more passes a polling loop with a one-second sleep can make
    when [elapsed] of its [maxWaitMs] budget are used. *)
Definition polls_left (maxWaitMs elapsed : Z) : nat :=
  Z.to_nat ((maxWaitMs - elapsed + 999) / 1000).

(** *** Operations of a pipeline run *)

Import Pipeline.

(** The milliseconds of timer waits among the operations. *)
Fixpoint wait_total (ops : list op) : Z :=
  match ops with
  | [] => 0
  | OpWait ms :: rest => ms + wait_total rest
  | _ :: rest => wait_total rest
  end.

(** The number of [existsSync] checks and of [statSync] reads. *)
Fixpoint looks (ops : list op) : nat :=
  match ops with
  | [] => 0
  | OpExists :: rest => S (looks rest)
  | _ :: rest => looks rest
  end.

Fixpoint stats (ops : list op) : nat :=
  match ops with
  | [] => 0
  | OpStat :: rest => S (stats rest)
  | _ :: rest => stats rest
  end.

(** Everything a run can invoke, in order, for a given stretch of poll
    operations. *)
Definition script (env : penv) (poll : list op) : list op :=
  (if e_connected env then [] else [OpRestart]) ++
  [OpSend "open_test_project"; OpSend "apply_effect";
   OpWait effectProcessingWaitMs; OpSend "export_sequence"] ++
  poll ++ [OpAnalyze].

(** The message of the exception that [statSync] throws in attempt [a],
    if it throws. *)
Definition stat_error (a : attempt) : option string :=
  if a_exists a then
    match a_size1 a, a_size2 a with
    | inl m, _ => Some m
    | inr _, inl m => Some m
    | inr _, inr _ => None
    end
  else None.

(** The message of the exception that the remote step for [cmd] raises,
    if it raises one: the rejection of the send, or the [TypeError] of
    reading [success] off a result that has no properties. *)
Definition send_error (env : penv) (cmd : string) : option string :=
  match e_send env cmd with
  | Failed m => Some m
  | Fulfilled v =>
      match get v "success" with
      | inl m => Some m
      | inr _ => None
      end
  end.

(** The export never shows up. *)
Definition never_exported : penv :=
  {| e_connected := true; e_recovery := Scenario.never_ready;
     e_send := fun _ => Fulfilled Scenario.ok_result;
     e_export := fun _ => Attempt false (inr 0) (inr 0);
     e_analysis := Scenario.good_analysis |}.

(** Applying the effect is never answered: the send is rejected by its
    timeout. *)
Definition effect_times_out : penv :=
  {| e_connected := true; e_recovery := Scenario.never_ready;
     e_send := fun cmd =>
       if String.eqb cmd "apply_effect"
       then Failed (timeout_message 30000)
       else Fulfilled Scenario.ok_result;
     e_export := Scenario.stable_at_third;
     e_analysis := Scenario.good_analysis |}.

(** *** The panel *)

Definition handle_set (h : option nat) : gset nat :=
  match h with
  | Some t => {[t]}
  | None => ∅
  end.

(** The runtime's intervals and timeouts are the ones the panel's two
    variables remember. *)
Definition timers_ok (st : Panel.state) : Prop :=
  Panel.intervals st = handle_set (Panel.heartbeatTimer st) /\
  Panel.timeouts st = handle_set (Panel.reconnectTimer st).

(** Socket [s] can still open, carry frames or close. *)
Definition live (st : Panel.state) (s : nat) : Prop :=
  exists rs, Panel.sockets st !! s = Some rs /\ rs <> Panel.CLOSED.

(** The panel has a socket that is not closed yet, or a reconnect timer
    that will make it connect again. *)
Definition pursuing (st : Panel.state) : Prop :=
  (exists s, Panel.ws st = Some s /\ live st s) \/
  exists t, Panel.reconnectTimer st = Some t /\ t ∈ Panel.timeouts st.

(** Events that come from the page and its user rather than from the
    socket, the timers and the host. *)
Definition by_hand (e : Panel.event) : bool :=
  match e with
  | Panel.PLoad _ | Panel.PReconnect _ => true
  | _ => false
  end.

(** The panel running by itself after the page has loaded: no load and
    no press of the reconnect button among the events. *)
Definition automatic (trace : list Panel.event) : Prop :=
  Forall (fun e => by_hand e = false) trace.

(** One socket at a time: a socket that is not closed is the current one,
    a pending reconnect means that no socket is left, and the heartbeat
    runs exactly while the current socket is open. *)
Definition orderly (st : Panel.state) : Prop :=
  (forall s, live st s -> Panel.ws st = Some s) /\
  (forall t, Panel.reconnectTimer st = Some t -> forall s, ~ live st s) /\
  (is_Some (Panel.heartbeatTimer st) <-> is_Some (Panel.ws_open st)).

(** The request id of a command message that an event delivers. *)
Definition command_id (e : Panel.event) : option value :=
  match e with
  | Panel.PMessage _ (Some msg) =>
      match get msg "type", get msg "requestId" with
      | inr ty, inr rid => if is_str ty "command" then Some rid else None
      | _, _ => None
      end
  | _ => None
  end.

Definition asked (trace : list Panel.event) : list value :=
  omap command_id trace.

(** The request id a frame answers, for a response frame. *)
Definition answer_id (f : Panel.frame) : option value :=
  match get (Panel.f_data f) "type", get (Panel.f_data f) "requestId" with
  | inr ty, inr rid => if is_str ty "response" then Some rid else None
  | _, _ => None
  end.

Definition answered (st : Panel.state) : list value :=
  omap answer_id (Panel.sent st).

(** The request ids of the evaluations the host has not called back
    for. *)
Definition awaited_ids (st : Panel.state) : list value :=
  (fun kv => Panel.ev_requestId (snd kv))
    <$> map_to_list (Panel.evaluations st).

(** Evaluation handles are handed out in order. *)
Definition fresh_evaluations (st : Panel.state) : Prop :=
  forall k, (Panel.nextEvaluation st <= k)%nat ->
            Panel.evaluations st !! k = None.

(** A heartbeat or a response. *)
Definition panel_frame (f : Panel.frame) : Prop :=
  Panel.f_data f = Panel.HEARTBEAT \/
  exists requestId result error,
    Panel.f_data f = Panel.response requestId result error.

(** *** Server and panel together *)






End Notions.

(** * Properties *)

(** ** The correlated-request channel: sends without a peer, responses *)

Module ChannelFacts.

Import Server Scenario.

(** C2. A send made while no peer connection is attached fails at the
    not-connected check, at the call itself: the caller gets the
    NotConnected rejection instead of a pending promise, no timer has been
    started, nothing has been queued in the pending-request map and nothing
    has been written to a socket, so there is no timeout left to wait for. *)
Theorem send_without_peer_fails_immediately
    (st : state) (cmd : string) (params : value) (timeout : Z) :
  premiereConnection st = None ->
  snd (sendToPremmiere st cmd params timeout) = Threw NOT_CONNECTED /\
  timers (fst (sendToPremmiere st cmd params timeout)) = timers st /\
  nextTimer (fst (sendToPremmiere st cmd params timeout)) = nextTimer st /\
  pendingRequests (fst (sendToPremmiere st cmd params timeout))
    = pendingRequests st /\
  outbox (fst (sendToPremmiere st cmd params timeout)) = outbox st.
Proof.
  intros Hnone. unfold sendToPremmiere. rewrite Hnone. simpl. tauto.
Qed.

Lemma send_without_peer_fails_immediately_witness :
  snd (sendToPremmiere init "apply_effect" (VObj []) 30000)
    = Threw NOT_CONNECTED /\
  timers (fst (sendToPremmiere init "apply_effect" (VObj []) 30000)) = ∅.
Proof.
  pose proof (send_without_peer_fails_immediately
                init "apply_effect" (VObj []) 30000 eq_refl) as H.
  split; [apply H | apply (proj1 (proj2 H))].
Defined.




(** C3. A response whose requestId has no entry in the pending-request map
    is dropped: the handler returns the state it was given, so no promise
    is settled, no pending entry or timer is touched, nothing is sent, and
    no exception leaves the handler. *)
Theorem unmatched_response_is_dropped
    (st : state) (msg rid : value) (now : Z) :
  get msg "type" = inr (VStr "response") ->
  get msg "requestId" = inr rid ->
  pending_get st rid = None ->
  on_message st (Some msg) now = st.
Proof.
  intros Hty Hrid Hnone. unfold on_message, handle_parsed.
  rewrite Hty, Hrid. simpl.
  destruct (get msg "error"), (get msg "result"); try reflexivity.
  rewrite Hnone. now destruct (truthy rid).
Qed.

Lemma unmatched_response_is_dropped_witness :
  pendingRequests (on_timer one_pending 0 world_quiet) !! 1 = None /\
  on_message (on_timer one_pending 0 world_quiet) (Some late_response) 40000
    = on_timer one_pending 0 world_quiet.
Proof.
  split; [reflexivity|].
  apply (unmatched_response_is_dropped _ late_response (VNum 1));
    reflexivity.
Defined.




End ChannelFacts.

(** ** The liveness monitor *)

Module LivenessFacts.

Import Server Scenario Aux.

Lemma check_fires_as_checkForCrash (st : state) (t : nat) (w : world) :
  timers st !! t = Some CrashCheck ->
  on_timer st t w = checkForCrash (clear_timer st t) w.
Proof. intros H. unfold on_timer. now rewrite H. Qed.

(** C5, as the code has it.  Every disconnect arms the crash check, and
    when the check runs after the settle delay: if the host process is
    absent and [lastHeartbeat] is positive, a crash is recorded, with the
    clock as its timestamp (non-empty for a positive clock) and the
    captured crash log; if the process is present, or [lastHeartbeat] is
    still zero, nothing is recorded.  [lastHeartbeat] is set to the clock
    when a peer attaches as well as on every heartbeat message, so it is
    zero only while no peer has ever attached. *)
Theorem crash_recorded_when_process_gone_after_attach
    (st : state) (t : nat) (w : world) :
  timers st !! t = Some CrashCheck ->
  (isPremiereRunning (w_pgrep w) = false -> 0 < lastHeartbeat st ->
     lastCrashTime (on_timer st t w) = w_now w /\
     lastCrashLog (on_timer st t w)
       = getLatestCrashLog (w_dir w) (w_now_log w) /\
     (0 < w_now w -> 0 < lastCrashTime (on_timer st t w))) /\
  (isPremiereRunning (w_pgrep w) = true \/ lastHeartbeat st <= 0 ->
     lastCrashTime (on_timer st t w) = lastCrashTime st /\
     lastCrashLog (on_timer st t w) = lastCrashLog st) /\
  (forall st0, timers (on_close st0) !! nextTimer st0 = Some CrashCheck) /\
  (forall st0 ws now, lastHeartbeat (on_connection st0 ws now) = now) /\
  (forall st0 fields now,
     assoc "type" fields = VStr "heartbeat" ->
     lastHeartbeat (on_message st0 (Some (VObj fields)) now) = now).
Proof.
  intros Ht. rewrite (check_fires_as_checkForCrash st t w Ht).
  unfold checkForCrash. simpl. split; [|split; [|split; [|split]]].
  - intros Hgone Hseen. rewrite Hgone. simpl.
    destruct (Z.ltb_spec 0 (lastHeartbeat st)); [simpl|lia].
    split; [reflexivity|]. split; [reflexivity|]. auto.
  - intros [Hthere | Hnever].
    + rewrite Hthere. simpl. split; reflexivity.
    + destruct (Z.ltb_spec 0 (lastHeartbeat st)); [lia|].
      rewrite andb_false_r. simpl. split; reflexivity.
  - intros st0. simpl. apply lookup_insert_eq.
  - reflexivity.
  - intros st0 fields now Hty. unfold on_message, handle_parsed. simpl.
    rewrite Hty. reflexivity.
Qed.

Lemma crash_recorded_when_process_gone_after_attach_witness :
  lastCrashTime (run init silent_peer_lost) = 2000 /\
  0 < lastCrashTime (run init silent_peer_lost).
Proof.
  pose proof (crash_recorded_when_process_gone_after_attach
                (run init [EConnect 7 1000; EClose]) 0 world_gone eq_refl)
    as (Hrec & _).
  destruct (Hrec eq_refl eq_refl) as (Htime & _ & Hpos).
  split; [exact Htime | apply Hpos; reflexivity].
Defined.

(** C5, as stated, fails: no heartbeat message was ever received in this
    run, the process is absent at the check, and a crash is recorded. *)
Lemma crash_recorded_without_heartbeat_message :
  forallb (fun e => negb (is_heartbeat e)) silent_peer_lost = true /\
  isPremiereRunning (w_pgrep world_gone) = false /\
  lastCrashTime init = 0 /\
  lastCrashTime (run init silent_peer_lost) = 2000.
Proof. repeat split. Qed.

(** *** Crash-artifact capture *)

Lemma elem_of_insert_desc (x y : fileInfo) (l : list fileInfo) :
  y ∈ insert_desc x l <-> y = x \/ y ∈ l.
Proof.
  induction l as [|z l IH]; simpl.
  - rewrite list_elem_of_singleton, elem_of_nil. tauto.
  - destruct (f_mtime z <=? f_mtime x).
    + rewrite elem_of_cons. tauto.
    + rewrite !elem_of_cons, IH. tauto.
Qed.

Lemma elem_of_sort_desc (y : fileInfo) (l : list fileInfo) :
  y ∈ sort_desc l <-> y ∈ l.
Proof.
  induction l as [|x l IH]; simpl; [tauto|].
  rewrite elem_of_insert_desc, elem_of_cons, IH. tauto.
Qed.

Lemma insert_desc_newest_first (x : fileInfo) (l : list fileInfo) :
  newest_first l -> newest_first (insert_desc x l).
Proof.
  destruct l as [|y l]; simpl.
  - intros _ g Hg. apply list_elem_of_singleton in Hg. subst. lia.
  - intros Hy. destruct (Z.leb_spec (f_mtime y) (f_mtime x)) as [Hle|Hlt].
    + intros g Hg. apply elem_of_cons in Hg as [->|Hg]; [lia|].
      specialize (Hy g Hg). lia.
    + intros g Hg. apply elem_of_cons in Hg as [->|Hg]; [lia|].
      apply elem_of_insert_desc in Hg as [->|Hg]; [lia|].
      apply Hy. now apply elem_of_cons; right.
Qed.

Lemma sort_desc_newest_first (l : list fileInfo) : newest_first (sort_desc l).
Proof.
  induction l as [|x l IH]; simpl; [exact I|].
  now apply insert_desc_newest_first.
Qed.

Lemma stat_all_elem (d : dirview) (names : list string)
    (infos : list fileInfo) :
  stat_all d names = Some infos ->
  forall i, i ∈ infos <->
    f_name i ∈ names /\ statMtime d (f_name i) = Some (f_mtime i).
Proof.
  unfold stat_all. intros H. apply mapM_Some in H.
  induction H as [|f i' names infos Hf _ IH]; intros i.
  - split; [intros Hi; inversion Hi | intros [Hi _]; inversion Hi].
  - rewrite !elem_of_cons, IH.
    destruct (statMtime d f) as [m|] eqn:Hm; simpl in Hf; [|discriminate].
    injection Hf as <-. split.
    + intros [Hi | [? ?]]; [subst i; simpl|]; auto.
    + intros [[Hn | Hn] Hs]; [|now right].
      left. destruct i as [n m']. simpl in *. subst n.
      rewrite Hm in Hs. now injection Hs as ->.
Qed.

Lemma length_substring_le (n : nat) (s : string) :
  (String.length (String.substring 0 n s) <= n)%nat.
Proof.
  revert s. induction n as [|n IH]; intros [|c s]; simpl; try lia.
  specialize (IH s). lia.
Qed.

(** The result is the empty string unless the newest candidate is inside
    the window and readable. *)
Lemma getLatestCrashLog_cases (d : dirview) (now : Z) :
  getLatestCrashLog d now = "" \/
  exists entries f m text,
    readdir d = Some entries /\
    f ∈ entries /\ is_candidate f = true /\ statMtime d f = Some m /\
    (forall g mg, g ∈ entries -> is_candidate g = true ->
                  statMtime d g = Some mg -> mg <= m) /\
    now - RECENCY_WINDOW < m /\
    readFile d f = Some text /\
    getLatestCrashLog d now = String.substring 0 CRASH_LOG_BUDGET text.
Proof.
  unfold getLatestCrashLog.
  destruct (readdir d) as [entries|]; [|now left].
  destruct (stat_all d (List.filter is_candidate entries)) as [infos|] eqn:Hs;
    [|now left].
  destruct (sort_desc infos) as [|newest rest] eqn:Hsort; [now left|].
  destruct (Z.ltb_spec (now - RECENCY_WINDOW) (f_mtime newest)) as [Hin|];
    [|now left].
  destruct (readFile d (f_name newest)) as [text|] eqn:Hread; [|now left].
  right. exists entries, (f_name newest), (f_mtime newest), text.
  pose proof (stat_all_elem d _ infos Hs) as Helem.
  assert (Hnew : newest ∈ infos).
  { apply elem_of_sort_desc. rewrite Hsort. apply elem_of_cons. now left. }
  apply Helem in Hnew as [Hcand Hstat].
  apply list_elem_of_In, filter_In in Hcand as [Hent Hcand].
  apply list_elem_of_In in Hent.
  repeat split; try assumption.
  intros g mg Hg Hgc Hgs.
  pose proof (sort_desc_newest_first infos) as Hmax. rewrite Hsort in Hmax.
  apply (Hmax (FileInfo g mg)).
  rewrite <- Hsort. apply elem_of_sort_desc, Helem. simpl. split; [|exact Hgs].
  apply list_elem_of_In, filter_In. split; [|exact Hgc].
  now apply list_elem_of_In.
Qed.

(** C6. Crash-artifact capture looks at one candidate only, the most
    recently modified one.  A non-empty result is the text of a candidate
    that no other candidate is newer than, whose modification time is
    inside the recency window, cut to the fixed budget; the result never
    exceeds the budget; and when a most recently modified candidate is
    outside the window the result is empty, whatever other files the
    directory holds. *)
Theorem crash_log_is_newest_candidate_in_window (d : dirview) (now : Z) :
  (getLatestCrashLog d now <> "" ->
   exists entries f m text,
     readdir d = Some entries /\
     f ∈ entries /\ is_candidate f = true /\ statMtime d f = Some m /\
     (forall g mg, g ∈ entries -> is_candidate g = true ->
                   statMtime d g = Some mg -> mg <= m) /\
     now - RECENCY_WINDOW < m /\
     readFile d f = Some text /\
     getLatestCrashLog d now = String.substring 0 CRASH_LOG_BUDGET text) /\
  (String.length (getLatestCrashLog d now) <= CRASH_LOG_BUDGET)%nat /\
  (forall entries f m,
     readdir d = Some entries ->
     f ∈ entries -> is_candidate f = true -> statMtime d f = Some m ->
     (forall g mg, g ∈ entries -> is_candidate g = true ->
                   statMtime d g = Some mg -> mg <= m) ->
     m <= now - RECENCY_WINDOW ->
     getLatestCrashLog d now = "").
Proof.
  pose proof (getLatestCrashLog_cases d now) as Hcases.
  split; [|split].
  - intros Hne. destruct Hcases as [He|Hex]; [contradiction|exact Hex].
  - destruct Hcases as [-> | (entries & f & m & text & _ & _ & _ & _ & _ & _
                                & _ & ->)].
    + simpl. lia.
    + apply length_substring_le.
  - intros entries f m Hdir Hf Hc Hs Hnewest Hold.
    destruct Hcases as [He | (entries' & f' & m' & text & Hdir' & Hf' & Hc'
                                & Hs' & _ & Hin & _)]; [exact He|].
    rewrite Hdir in Hdir'. injection Hdir' as <-.
    specialize (Hnewest f' m' Hf' Hc' Hs'). lia.
Qed.

Lemma crash_log_is_newest_candidate_in_window_witness :
  getLatestCrashLog reports_dir 950000 = "new crash" /\
  getLatestCrashLog reports_dir 1000000 = "".
Proof.
  split; [reflexivity|].
  apply (proj2 (proj2 (crash_log_is_newest_candidate_in_window
                         reports_dir 1000000))
           (default [] (readdir reports_dir))
           "Adobe Premiere Pro 2025-11-02-new.crash" 900000).
  - reflexivity.
  - simpl. set_solver.
  - reflexivity.
  - reflexivity.
  - intros g mg Hg Hc Hs. simpl in Hg.
    repeat (apply elem_of_cons in Hg as [->|Hg]);
      [ | | discriminate Hc | inversion Hg];
      simpl in Hs; injection Hs as <-; lia.
  - unfold RECENCY_WINDOW. lia.
Defined.

End LivenessFacts.

(** ** The correlated-request channel: concurrent sends *)

Module CorrelationFacts.

Import Server Scenario Aux.






















End CorrelationFacts.

(** ** The recovery orchestrator *)

Module RecoveryFacts.

Import Recovery Scenario Aux.

Lemma perform_ok st es : watcher_ok st -> watcher_ok (perform st es).
Proof. auto. Qed.

Lemma start_ok st : watcher_ok st -> watcher_ok (startDialogWatcher st).
Proof.
  unfold watcher_ok, startDialogWatcher.
  destruct (dialogWatcherInterval st) eqn:E; [now rewrite E|]. simpl.
  intros ->. apply union_empty_r_L.
Qed.

Lemma stop_stopped st : watcher_ok st -> watcher_stopped (stopDialogWatcher st).
Proof.
  unfold watcher_ok, watcher_stopped, stopDialogWatcher.
  destruct (dialogWatcherInterval st) eqn:E; simpl; [|now rewrite E].
  intros ->. split; [reflexivity|apply difference_diag_L].
Qed.

Lemma stopped_ok st : watcher_stopped st -> watcher_ok st.
Proof. unfold watcher_ok. now intros [-> ->]. Qed.

Lemma tick_ok st h : watcher_ok st -> watcher_ok (on_interval st h).
Proof. unfold on_interval. destruct (bool_decide _); auto. Qed.

Lemma apply_wop_ok st o : watcher_ok st -> watcher_ok (apply_wop st o).
Proof.
  destruct o; simpl;
    auto using start_ok, stopped_ok, stop_stopped, tick_ok.
Qed.

Lemma interleave_ok ops st : watcher_ok st -> watcher_ok (interleave st ops).
Proof.
  revert st. induction ops as [|o ops IH]; intros st H; [exact H|].
  unfold interleave in *. simpl. apply IH, apply_wop_ok, H.
Qed.

Lemma suspend_ok st ms ops : watcher_ok st -> watcher_ok (suspend st ms ops).
Proof. intros H. apply interleave_ok, perform_ok, H. Qed.

Lemma readyLoop_ok env maxWaitMs k elapsed st :
  watcher_ok st -> watcher_ok (fst (readyLoop env maxWaitMs k elapsed st)).
Proof.
  funelim (readyLoop env maxWaitMs k elapsed st); intros Hok;
    try (match goal with IH : _ -> watcher_ok _ |- _ => apply IH end);
    auto using suspend_ok, perform_ok.
Qed.

Lemma peerLoop_stopped env k elapsed st :
  watcher_ok st -> watcher_stopped (fst (peerLoop env k elapsed st)).
Proof.
  funelim (peerLoop env k elapsed st); intros Hok;
    try (match goal with IH : _ -> watcher_stopped _ |- _ => apply IH end);
    simpl; auto using suspend_ok, stop_stopped.
Qed.

Lemma peerLoop_result env k elapsed st :
  snd (peerLoop env k elapsed st) = RestartResult true RESTARTED \/
  snd (peerLoop env k elapsed st) = RestartResult false NO_PANEL.
Proof.
  funelim (peerLoop env k elapsed st); simpl; auto.
Qed.

Lemma relaunch_ok env st : watcher_ok st -> watcher_ok (relaunch env st).
Proof.
  intros H. unfold relaunch.
  auto using perform_ok, suspend_ok, start_ok.
Qed.

Lemma history_ok history : watcher_ok (interleave dinit history).
Proof. apply interleave_ok. reflexivity. Qed.

(** C9. Every run of the recovery orchestrator ends, and whichever way
    it ends — the host never became ready, the panel connected, or the
    panel did not connect in time — the dialog watcher is stopped when
    the run returns: the handler's variable is cleared, no interval is
    left active, so no tick dismisses a dialog any more.  This holds after
    any earlier use of the watcher and for whatever other callers of the
    watcher and interval ticks ran while the orchestration was suspended.
    While the run was under way the watcher was on. *)
Theorem watcher_stopped_on_every_exit (env : renv) (history : list wop) :
  dialogWatcherInterval (fst (restartPremiere env (interleave dinit history)))
    = None /\
  intervals (fst (restartPremiere env (interleave dinit history))) = ∅ /\
  (forall h,
     on_interval (fst (restartPremiere env (interleave dinit history))) h
     = fst (restartPremiere env (interleave dinit history))) /\
  dialogWatcherInterval (startDialogWatcher (interleave dinit history))
    <> None /\
  (if snd (waitForPremiereReady env 90000
             (relaunch env (interleave dinit history)))
   then snd (restartPremiere env (interleave dinit history))
          = RestartResult true RESTARTED \/
        snd (restartPremiere env (interleave dinit history))
          = RestartResult false NO_PANEL
   else snd (restartPremiere env (interleave dinit history))
          = RestartResult false NOT_READY).
Proof.
  pose proof (history_ok history) as H0.
  set (st0 := interleave dinit history) in *.
  assert (Hstopped : watcher_stopped (fst (restartPremiere env st0))).
  { unfold restartPremiere.
    pose proof (readyLoop_ok env 90000 0 (Z.of_N (r_ready_lag env 0))
                  (relaunch env st0) (relaunch_ok env st0 H0)) as Hr.
    unfold waitForPremiereReady.
    destruct (readyLoop env 90000 0 _ (relaunch env st0)) as [st5 ready].
    simpl in Hr. pose proof (interleave_ok (r_resumed env) st5 Hr) as H6.
    destruct ready; simpl.
    - now apply peerLoop_stopped.
    - now apply stop_stopped. }
  destruct Hstopped as [Hvar Hint].
  repeat split; try assumption.
  - intros h. unfold on_interval. rewrite Hint.
    rewrite bool_decide_eq_false_2; [reflexivity|apply not_elem_of_empty].
  - unfold startDialogWatcher.
    destruct (dialogWatcherInterval st0) eqn:E; [now rewrite E|discriminate].
  - unfold restartPremiere.
    destruct (waitForPremiereReady env 90000 (relaunch env st0))
      as [st5 ready].
    destruct ready; simpl; [apply peerLoop_result|reflexivity].
Qed.

Lemma watcher_stopped_on_every_exit_witness :
  snd (restartPremiere never_ready (interleave dinit [WStart; WTick 0]))
    = RestartResult false NOT_READY /\
  intervals
    (fst (restartPremiere never_ready (interleave dinit [WStart; WTick 0])))
    = ∅.
Proof.
  destruct (watcher_stopped_on_every_exit never_ready [WStart; WTick 0])
    as (_ & Hint & _ & _ & Hres).
  split; [exact Hres|exact Hint].
Defined.

Example never_ready_host :
  snd (restartPremiere never_ready dinit) = RestartResult false NOT_READY /\
  dialogWatcherInterval (fst (restartPremiere never_ready dinit)) = None.
Proof. split; reflexivity. Qed.

Example ready_host_with_panel :
  snd (restartPremiere ready_and_connected dinit)
    = RestartResult true RESTARTED /\
  dialogWatcherInterval (fst (restartPremiere ready_and_connected dinit))
    = None.
Proof. split; reflexivity. Qed.

End RecoveryFacts.

(** ** The pipeline runner *)

Module PipelineFacts.

Import Recovery Pipeline Scenario Aux.

(** Unfold the monad and the primitive statements. *)
Ltac run_monad :=
  cbv beta iota zeta delta
    [mbind M_bind bind mret M_ret pure throw return_results invoke update
     stat_size prop push set_last_status set_last_result set_error
     set_success await_send await_restart call_restart
     ps_results ps_ops ps_dialog].

Tactic Notation "run_monad" "in" hyp(H) :=
  cbv beta iota zeta delta
    [mbind M_bind bind mret M_ret pure throw return_results invoke update
     stat_size prop push set_last_status set_last_result set_error
     set_success await_send await_restart call_restart
     ps_results ps_ops ps_dialog] in H.

Lemma emit_emit s a b : emit (emit s a) b = emit s (a ++ b).
Proof. unfold emit. simpl. now rewrite app_assoc. Qed.

Lemma invoke_emit o s : invoke o s = (emit s [o], Normal tt).
Proof. reflexivity. Qed.

(** One iteration of the poll. *)
Lemma export_poll_step (env : penv) (i n : nat) (s : pstate) :
  export_poll env i (S n) s =
  if a_exists (e_export env i) then
    match a_size1 (e_export env i) with
    | inl e => (emit s [OpExists; OpStat], Throw e)
    | inr size1 =>
        match a_size2 (e_export env i) with
        | inl e => (emit s [OpExists; OpStat; OpWait 2000; OpStat], Throw e)
        | inr size2 =>
            if (size1 =? size2) && (0 <? size1)
            then (emit s [OpExists; OpStat; OpWait 2000; OpStat],
                  Normal true)
            else export_poll env (S i) n
                   (emit s [OpExists; OpStat; OpWait 2000; OpStat;
                            OpWait 1000])
        end
    end
  else export_poll env (S i) n (emit s [OpExists; OpWait 1000]).
Proof.
  cbn [export_poll]. unfold emit. run_monad.
  destruct (a_exists (e_export env i)).
  - destruct (a_size1 (e_export env i)) as [e|size1];
      [now rewrite <- !app_assoc|].
    destruct (a_size2 (e_export env i)) as [e|size2];
      [now rewrite <- !app_assoc|].
    destruct ((size1 =? size2) && (0 <? size1));
      now rewrite <- !app_assoc.
  - now rewrite <- !app_assoc.
Qed.

Lemma emit_nil s : emit s [] = s.
Proof. destruct s. unfold emit. simpl. now rewrite app_nil_r. Qed.

Lemma poll_ops_cons (l : list op) (ops : list op) :
  Forall poll_op l -> Forall poll_op ops -> Forall poll_op (l ++ ops).
Proof. intros. now apply Forall_app. Qed.

Ltac poll_ops := repeat constructor; unfold poll_op; tauto.

(** The poll only invokes its own operations, leaves the report alone, and
    ends with a verdict or an exception. *)
Lemma export_poll_frame (env : penv) (n i : nat) (s : pstate) :
  exists ops c,
    export_poll env i n s = (emit s ops, c) /\
    Forall poll_op ops /\ c <> Return.
Proof.
  revert i s. induction n as [|n IH]; intros i s.
  - exists [], (Normal false). rewrite emit_nil. now repeat split.
  - rewrite export_poll_step.
    destruct (a_exists (e_export env i)).
    + destruct (a_size1 (e_export env i)) as [e|n1].
      { eexists _, _. split; [reflexivity|]. split; [poll_ops|discriminate]. }
      destruct (a_size2 (e_export env i)) as [e|n2].
      { eexists _, _. split; [reflexivity|]. split; [poll_ops|discriminate]. }
      destruct ((n1 =? n2) && (0 <? n1)).
      { eexists _, _. split; [reflexivity|]. split; [poll_ops|discriminate]. }
      destruct (IH (S i) (emit s [OpExists; OpStat; OpWait 2000; OpStat;
                                  OpWait 1000])) as (ops & c & -> & Ho & Hc).
      rewrite emit_emit. eexists _, c. split; [reflexivity|].
      split; [apply poll_ops_cons; [poll_ops|exact Ho]|exact Hc].
    + destruct (IH (S i) (emit s [OpExists; OpWait 1000]))
        as (ops & c & -> & Ho & Hc).
      rewrite emit_emit. eexists _, c. split; [reflexivity|].
      split; [apply poll_ops_cons; [poll_ops|exact Ho]|exact Hc].
Qed.

Lemma stable_check (a : attempt) (n1 n2 : Z) :
  a_exists a = true -> a_size1 a = inr n1 -> a_size2 a = inr n2 ->
  ((n1 =? n2) && (0 <? n1) = true <-> stable a).
Proof.
  intros He H1 H2. unfold stable. rewrite He, H1, H2. split.
  - intros H. apply andb_true_iff in H as [Heq Hpos].
    apply Z.eqb_eq in Heq. apply Z.ltb_lt in Hpos. subst n2.
    split; [reflexivity|]. now exists n1.
  - intros [_ (n & E1 & E2 & Hpos)]. injection E1 as <-. injection E2 as <-.
    apply andb_true_iff. split; [apply Z.eqb_refl|now apply Z.ltb_lt].
Qed.



(** *** Symbolic execution of the statements of the runner *)

Lemma bind_unfold {A B} (m : M A) (f : A -> M B) (s : pstate) :
  bind m f s =
  match m s with
  | (s', Normal a) => f a s'
  | (s', Return) => (s', Return)
  | (s', Throw e) => (s', Throw e)
  end.
Proof. reflexivity. Qed.

Lemma on_last_snoc f (l : list stepRecord) (r : stepRecord) :
  on_last f (l ++ [r]) = l ++ [f r].
Proof.
  unfold on_last. rewrite reverse_snoc. now rewrite reverse_involutive.
Qed.

Section Statements.

Variables (l : list stepRecord) (ok : bool) (e : option string)
          (ops : list op) (d : dstate).

Lemma push_spec r :
  push r (st_of l ok e ops d) = (st_of (l ++ [r]) ok e ops d, Normal tt).
Proof. reflexivity. Qed.

Lemma invoke_spec o :
  invoke o (st_of l ok e ops d) = (st_of l ok e (ops ++ [o]) d, Normal tt).
Proof. reflexivity. Qed.

Lemma set_error_spec m :
  set_error m (st_of l ok e ops d) = (st_of l ok (Some m) ops d, Normal tt).
Proof. reflexivity. Qed.

Lemma set_success_spec b :
  set_success b (st_of l ok e ops d) = (st_of l b e ops d, Normal tt).
Proof. reflexivity. Qed.

Lemma return_spec :
  return_results (st_of l ok e ops d) = (st_of l ok e ops d, Return).
Proof. reflexivity. Qed.

Lemma throw_spec {A} m :
  @throw A m (st_of l ok e ops d) = (st_of l ok e ops d, Throw m).
Proof. reflexivity. Qed.

Lemma pure_spec {A} (a : A) :
  pure a (st_of l ok e ops d) = (st_of l ok e ops d, Normal a).
Proof. reflexivity. Qed.

Lemma set_last_status_spec r x :
  set_last_status x (st_of (l ++ [r]) ok e ops d)
  = (st_of (l ++ [StepRecord (step r) x (result r) (waitMs r)]) ok e ops d,
     Normal tt).
Proof.
  unfold set_last_status, update, st_of. simpl. now rewrite on_last_snoc.
Qed.

Lemma set_last_result_spec r v :
  set_last_result v (st_of (l ++ [r]) ok e ops d)
  = (st_of (l ++ [StepRecord (step r) (status r) (Some v) (waitMs r)])
       ok e ops d,
     Normal tt).
Proof.
  unfold set_last_result, update, st_of. simpl. now rewrite on_last_snoc.
Qed.

Lemma await_restart_spec env :
  await_restart env (st_of l ok e ops d)
  = (st_of l ok e (ops ++ [OpRestart])
       (fst (restartPremiere (e_recovery env) d)),
     Normal (snd (restartPremiere (e_recovery env) d))).
Proof.
  unfold await_restart, call_restart, st_of. run_monad.
  now destruct (restartPremiere (e_recovery env) d).
Qed.

Lemma export_poll_spec env n i :
  exists ops' c,
    export_poll env i n (st_of l ok e ops d)
    = (st_of l ok e (ops ++ ops') d, c) /\
    Forall poll_op ops' /\ c <> Return.
Proof. apply (export_poll_frame env n i (st_of l ok e ops d)). Qed.

End Statements.

Ltac exec :=
  unfold mret, M_ret;
  rewrite ?push_spec, ?invoke_spec, ?set_error_spec, ?set_success_spec,
    ?return_spec, ?pure_spec, ?throw_spec, ?set_last_status_spec, ?set_last_result_spec,
    ?await_restart_spec;
  cbv beta iota.

(** Running [m ;; k]: unfold the outermost bind. *)
Ltac next := unfold mbind, M_bind; rewrite bind_unfold; exec.

Lemma remote_step_eval env name cmd prefix l ok e ops d :
  remote_step env name cmd prefix (st_of l ok e ops d) =
  match e_send env cmd with
  | Failed m =>
      (st_of (l ++ [starting name]) ok e (ops ++ [OpSend cmd]) d, Throw m)
  | Fulfilled v =>
      match get v "success" with
      | inl m =>
          (st_of (l ++ [starting name]) ok e (ops ++ [OpSend cmd]) d,
           Throw m)
      | inr okv =>
          if truthy okv then
            (st_of (l ++ [StepRecord name "success" (Some v) None]) ok e
               (ops ++ [OpSend cmd]) d,
             Normal tt)
          else
            match get v "error" with
            | inr ev =>
                (st_of (l ++ [StepRecord name "failed" (Some v) None]) ok
                   (Some (prefix +:+ to_string ev)) (ops ++ [OpSend cmd]) d,
                 Return)
            | inl m =>
                (st_of (l ++ [StepRecord name "failed" (Some v) None]) ok e
                   (ops ++ [OpSend cmd]) d,
                 Throw m)
            end
      end
  end.
Proof.
  unfold remote_step. next. unfold await_send. next. next.
  destruct (e_send env cmd) as [v|m]; exec; [|reflexivity].
  next. unfold prop.
  destruct (get v "success") as [m|okv]; exec; [reflexivity|].
  next. next. next.
  destruct (truthy okv); cbn [negb outcome_status]; exec; [reflexivity|].
  next. destruct (get v "error") as [m|ev]; exec; [reflexivity|].
  next. reflexivity.
Qed.

Lemma ensure_connected_eval env l ok e ops d :
  ensure_connected env (st_of l ok e ops d) =
  if e_connected env then (st_of l ok e ops d, Normal tt)
  else if rr_success (snd (restartPremiere (e_recovery env) d)) then
    (st_of (l ++ [StepRecord "restart_premiere" "success"
                    (Some (restart_value
                             (snd (restartPremiere (e_recovery env) d))))
                    None])
       ok e (ops ++ [OpRestart]) (fst (restartPremiere (e_recovery env) d)),
     Normal tt)
  else
    (st_of (l ++ [StepRecord "restart_premiere" "failed"
                    (Some (restart_value
                             (snd (restartPremiere (e_recovery env) d))))
                    None])
       ok (Some "Failed to start Premiere") (ops ++ [OpRestart])
       (fst (restartPremiere (e_recovery env) d)),
     Return).
Proof.
  unfold ensure_connected.
  destruct (e_connected env); cbn [negb]; [reflexivity|].
  next. next. next. next.
  destruct (rr_success (snd (restartPremiere (e_recovery env) d)));
    cbn [negb outcome_status]; exec; [reflexivity|].
  next. reflexivity.
Qed.

Lemma wait_for_processing_eval l ok e ops d :
  wait_for_processing (st_of l ok e ops d) =
  (st_of (l ++ [StepRecord "wait_for_processing" "success" None
                  (Some effectProcessingWaitMs)])
     ok e (ops ++ [OpWait effectProcessingWaitMs]) d,
   Normal tt).
Proof. unfold wait_for_processing. next. next. reflexivity. Qed.








(** Reading off the report of a finished run. *)
Ltac report_leaf :=
  exec; cbn [catch]; unfold report_ok, st_of;
  cbn [ps_results ps_ops steps error success app];
  intros k s Hk Hfailed;
  repeat (destruct k as [|k];
          [injection Hk as <-; cbn [status] in Hfailed;
           try discriminate Hfailed
          |cbn [lookup list_lookup] in Hk]);
  try discriminate Hk.

Ltac member := apply list_elem_of_In; simpl; auto 10.

Ltac ops_facts :=
  repeat first
    [ constructor; [member|]
    | solve [constructor]
    | apply Forall_app; split
    | eapply Forall_impl; [eassumption|];
      intros ? [->|[->|[->| ->]]]; member ].

Ltac report_facts :=
  split; [reflexivity|];
  split; [reflexivity|];
  split; [eexists; reflexivity|];
  split; [solve [ops_facts]|];
  split;
    [intros s' Hin;
     repeat (apply elem_of_cons in Hin as [->|Hin]; [discriminate|]);
     inversion Hin
    |].

Ltac error_text :=
  first
    [ intros _; unfold failure_text; cbn [step result];
      repeat match goal with H : get _ "error" = inr _ |- _ => rewrite H end;
      reflexivity
    | intros Hnone; exfalso; apply Hnone;
      rewrite !elem_of_cons, elem_of_app, list_elem_of_singleton;
      repeat right; reflexivity ].

Ltac leaf := report_leaf; report_facts; error_text.





Example all_good_run :
  success (runAutonomousTestCycle all_good dinit) = true /\
  error (runAutonomousTestCycle all_good dinit) = None /\
  (step <$> steps (runAutonomousTestCycle all_good dinit)) = plan all_good.
Proof. repeat split. Qed.

End PipelineFacts.

(** ** The channel: ids, bookkeeping, races *)

Module ChannelExtras.

Import Server Scenario Aux CorrelationFacts.






(** Delivering the same inbound message twice has the effect of
    delivering it once: the second copy of a response finds its entry
    gone, and a second heartbeat stores the same time. *)
Theorem message_delivery_is_idempotent
    (st : state) (data : option value) (now : Z) :
  on_message (on_message st data now) data now = on_message st data now.
Proof.
  destruct data as [msg|]; [|reflexivity].
  unfold on_message at 2 3. unfold handle_parsed.
  destruct (get msg "type") as [e|ty] eqn:Hty;
    [unfold on_message, handle_parsed; now rewrite Hty|].
  destruct (is_str ty "heartbeat") eqn:Hhb;
    [unfold on_message, handle_parsed; now rewrite Hty, Hhb|].
  destruct (is_str ty "auto_setup_complete") eqn:Hauto;
    [unfold on_message, handle_parsed; now rewrite Hty, Hhb, Hauto|].
  destruct (get msg "requestId") as [e|rid] eqn:Hrid;
    [unfold on_message, handle_parsed; now rewrite Hty, Hhb, Hauto, Hrid|].
  destruct (get msg "error") as [e|err] eqn:Herr;
    [unfold on_message, handle_parsed;
     now rewrite Hty, Hhb, Hauto, Hrid, Herr|].
  destruct (get msg "result") as [e|res] eqn:Hres;
    [unfold on_message, handle_parsed;
     now rewrite Hty, Hhb, Hauto, Hrid, Herr, Hres|].
  destruct (is_str ty "response" && truthy rid) eqn:Hresp;
    [|unfold on_message, handle_parsed;
      now rewrite Hty, Hhb, Hauto, Hrid, Herr, Hres, Hresp].
  destruct (pending_get st rid) as [pe|] eqn:Hpe;
    [|unfold on_message, handle_parsed;
      now rewrite Hty, Hhb, Hauto, Hrid, Herr, Hres, Hresp, Hpe].
  unfold on_message, handle_parsed.
  rewrite Hty, Hhb, Hauto, Hrid, Herr, Hres, Hresp.
  destruct rid as [| | |n| | |]; try discriminate Hpe.
  unfold pending_get. simpl. now rewrite lookup_delete_eq.
Qed.



(** Only a message of type "response" can settle a request: any other
    parsed message, a heartbeat or an auto-setup notice included, leaves
    the pending-request map, the timers and the settlements as they were,
    even when it carries the requestId of a pending request. *)
Theorem other_messages_settle_nothing
    (st : state) (msg ty : value) (now : Z) :
  get msg "type" = inr ty ->
  is_str ty "response" = false ->
  pendingRequests (on_message st (Some msg) now) = pendingRequests st /\
  timers (on_message st (Some msg) now) = timers st /\
  settled (on_message st (Some msg) now) = settled st /\
  premiereConnection (on_message st (Some msg) now) = premiereConnection st.
Proof.
  intros Hty Hno. unfold on_message, handle_parsed. rewrite Hty.
  destruct (is_str ty "heartbeat"); [now repeat split|].
  destruct (is_str ty "auto_setup_complete"); [now repeat split|].
  destruct (get msg "requestId"), (get msg "error"), (get msg "result");
    try now repeat split.
  rewrite Hno. now repeat split.
Qed.

Lemma other_messages_settle_nothing_witness :
  pendingRequests
    (on_message one_pending
       (Some (VObj [("type", VStr "heartbeat"); ("requestId", VNum 1)])) 5000)
  = pendingRequests one_pending.
Proof.
  apply (other_messages_settle_nothing one_pending
           (VObj [("type", VStr "heartbeat"); ("requestId", VNum 1)])
           (VStr "heartbeat") 5000 eq_refl eq_refl).
Defined.





End ChannelExtras.

(** ** Text tools: crash log, debug log, source edits *)

Module ToolFacts.

Import Server Scenario Aux Tools Notions.

Lemma or_else_nonempty (a b : string) : b <> "" -> or_else a b <> "".
Proof.
  unfold or_else. destruct (String.eqb_spec a ""); auto.
Qed.

Lemma step_keeps_crash_log (st : state) (e : event) :
  no_crash_seen e -> lastCrashLog (step st e) = lastCrashLog st.
Proof.
  destruct e as [ws now|data now| |cmd params timeout|t w]; simpl; intros H.
  - reflexivity.
  - destruct data as [msg|]; [|reflexivity].
    unfold on_message, handle_parsed.
    destruct (get msg "type") as [e|ty]; [reflexivity|].
    destruct (is_str ty "heartbeat"); [reflexivity|].
    destruct (is_str ty "auto_setup_complete"); [reflexivity|].
    destruct (get msg "requestId"), (get msg "error"), (get msg "result");
      try reflexivity.
    destruct (is_str ty "response" && truthy _); [|reflexivity].
    destruct (pending_get st _); reflexivity.
  - reflexivity.
  - unfold sendToPremmiere. now destruct (premiereConnection st).
  - unfold on_timer. destruct (timers st !! t) as [[id p ms|]|];
      [reflexivity| |reflexivity].
    unfold checkForCrash. rewrite H. reflexivity.
Qed.

Lemma run_keeps_crash_log (trace : list event) (st : state) :
  Forall no_crash_seen trace ->
  lastCrashLog (run st trace) = lastCrashLog st.
Proof.
  revert st. induction trace as [|e trace IH]; intros st H; [reflexivity|].
  inversion H as [|? ? He Hrest]; subst. unfold run in *. simpl.
  rewrite IH by exact Hrest. now apply step_keeps_crash_log.
Qed.

(** The crash-log tool never answers with an empty text; a crash report
    inside the recency window is what it returns; and the report captured
    when a crash was recorded stays available after the window has passed,
    for as long as no later check records another crash: it is returned
    whenever the directory has nothing recent to offer.  Without either,
    the answer is the fixed notice. *)
Theorem crash_log_tool_falls_back_to_captured_log
    (st : state) (w : world) (trace : list event) (d : dirview) (now : Z) :
  get_last_crash_log st d now <> "" /\
  (getLatestCrashLog d now <> "" ->
   get_last_crash_log st d now = getLatestCrashLog d now) /\
  (isPremiereRunning (w_pgrep w) = false ->
   0 < lastHeartbeat st ->
   getLatestCrashLog (w_dir w) (w_now_log w) <> "" ->
   Forall no_crash_seen trace ->
   getLatestCrashLog d now = "" ->
   get_last_crash_log (run (checkForCrash st w) trace) d now
   = getLatestCrashLog (w_dir w) (w_now_log w)) /\
  (getLatestCrashLog d now = "" -> lastCrashLog st = "" ->
   get_last_crash_log st d now = NO_CRASH_LOGS).
Proof.
  split; [|split; [|split]].
  - unfold get_last_crash_log. apply or_else_nonempty. discriminate.
  - intros Hfresh. unfold get_last_crash_log, or_else.
    destruct (String.eqb_spec (getLatestCrashLog d now) ""); [contradiction|].
    destruct (String.eqb_spec (getLatestCrashLog d now) ""); [contradiction|].
    reflexivity.
  - intros Hgone Hseen Hlog Hquiet Hstale.
    unfold get_last_crash_log. rewrite Hstale.
    rewrite (run_keeps_crash_log trace _ Hquiet).
    unfold checkForCrash. rewrite Hgone.
    destruct (Z.ltb_spec 0 (lastHeartbeat st)); [simpl|lia].
    unfold or_else. simpl.
    destruct (String.eqb_spec (getLatestCrashLog (w_dir w) (w_now_log w)) "");
      [contradiction|].
    destruct (String.eqb_spec (getLatestCrashLog (w_dir w) (w_now_log w)) "");
      [contradiction|reflexivity].
  - intros Hstale Hnone. unfold get_last_crash_log.
    now rewrite Hstale, Hnone.
Qed.

Lemma crash_log_tool_falls_back_to_captured_log_witness :
  getLatestCrashLog reports_dir 2000000 = "" /\
  get_last_crash_log
    (run (checkForCrash (run init [EConnect 7 1000; EClose]) world_crashed)
       [EConnect 8 960000; ETimer 0 world_quiet])
    reports_dir 2000000
  = "new crash".
Proof.
  split; [reflexivity|].
  apply (proj1 (proj2 (proj2 (crash_log_tool_falls_back_to_captured_log
                                (run init [EConnect 7 1000; EClose])
                                world_crashed
                                [EConnect 8 960000; ETimer 0 world_quiet]
                                reports_dir 2000000)))).
  - reflexivity.
  - reflexivity.
  - discriminate.
  - repeat constructor.
  - reflexivity.
Defined.

(** *** Strings *)

Lemma app_cons (c : Ascii.ascii) (s t : string) :
  String c s +:+ t = String c (s +:+ t).
Proof. reflexivity. Qed.

Lemma app_nil_l (s : string) : "" +:+ s = s.
Proof. reflexivity. Qed.

Lemma app_nil_r (s : string) : s +:+ "" = s.
Proof. induction s as [|c s IH]; [reflexivity|].
  rewrite ?app_cons. cbn. now f_equal.
Qed.

Lemma app_assoc (a b c : string) : (a +:+ b) +:+ c = a +:+ (b +:+ c).
Proof. induction a as [|x a IH]; [reflexivity|].
  rewrite ?app_cons. cbn. now f_equal.
Qed.

Lemma app_length (a b : string) :
  String.length (a +:+ b) = (String.length a + String.length b)%nat.
Proof. induction a as [|x a IH]; [reflexivity|].
  rewrite ?app_cons. cbn. now f_equal.
Qed.

Lemma substring_all (s : string) : String.substring 0 (String.length s) s = s.
Proof. induction s as [|c s IH]; [reflexivity|].
  rewrite ?app_cons. cbn. now f_equal.
Qed.

Lemma prefix_app (p r : string) : String.prefix p (p +:+ r) = true.
Proof.
  induction p as [|c p IH]; [now destruct r|].
  rewrite app_cons. simpl.
  destruct (Ascii.ascii_dec c c); [exact IH|contradiction].
Qed.

Lemma prefix_rest (p s : string) :
  String.prefix p s = true ->
  p +:+ String.substring (String.length p)
          (String.length s - String.length p) s = s.
Proof.
  revert s. induction p as [|c p IH]; intros s H.
  - simpl. rewrite Nat.sub_0_r. apply substring_all.
  - destruct s as [|c' s]; simpl in H; [discriminate|].
    destruct (Ascii.ascii_dec c c') as [->|]; [|discriminate].
    rewrite app_cons. simpl. now rewrite IH.
Qed.

(** *** The debug log *)

Lemma split_nonempty (sep : Ascii.ascii) (s : string) : split sep s <> [].
Proof.
  destruct s as [|c s]; simpl; [discriminate|].
  destruct (Ascii.eqb c sep); [discriminate|].
  destruct (split sep s); discriminate.
Qed.

Lemma join_cons (sep : Ascii.ascii) (x : string) (l : list string) :
  l <> [] -> join sep (x :: l) = x +:+ String sep (join sep l).
Proof. destruct l; [contradiction|reflexivity]. Qed.

Lemma join_split (sep : Ascii.ascii) (s : string) :
  join sep (split sep s) = s.
Proof.
  induction s as [|c s IH]; [reflexivity|]. simpl.
  destruct (Ascii.eqb_spec c sep) as [->|Hne].
  - rewrite join_cons by apply split_nonempty. rewrite app_nil_l.
    now rewrite IH.
  - pose proof (split_nonempty sep s) as Hs.
    destruct (split sep s) as [|first others]; [contradiction|].
    destruct others as [|y others]; simpl in *; rewrite <- IH;
      [reflexivity|now rewrite app_cons].
Qed.

Lemma length_split (sep : Ascii.ascii) (s : string) :
  length (split sep s) = S (count_char sep s).
Proof.
  induction s as [|c s IH]; [reflexivity|]. simpl.
  destruct (Ascii.eqb c sep); simpl; [now rewrite IH|].
  pose proof (split_nonempty sep s) as Hs.
  destruct (split sep s); [contradiction|exact IH].
Qed.

Lemma split_clean (sep : Ascii.ascii) (s : string) :
  Forall (fun x => has_char sep x = false) (split sep s).
Proof.
  induction s as [|c s IH]; simpl; [now repeat constructor|].
  destruct (Ascii.eqb c sep) eqn:Hc; [now constructor|].
  destruct (split sep s) as [|first others].
  { constructor; [simpl; now rewrite Hc|constructor]. }
  inversion IH as [|? ? Hfirst Hothers]; subst.
  constructor; [simpl; now rewrite Hc|exact Hothers].
Qed.

Lemma split_one (sep : Ascii.ascii) (x : string) :
  has_char sep x = false -> split sep x = [x].
Proof.
  induction x as [|c x IH]; [reflexivity|]. simpl. intros H.
  apply orb_false_iff in H as [Hc Hx]. rewrite Hc, (IH Hx). reflexivity.
Qed.

Lemma split_app_sep (sep : Ascii.ascii) (x t : string) :
  has_char sep x = false ->
  split sep (x +:+ String sep t) = x :: split sep t.
Proof.
  induction x as [|c x IH]; intros H.
  - rewrite app_nil_l. simpl. now rewrite Ascii.eqb_refl.
  - simpl in H. apply orb_false_iff in H as [Hc Hx].
    rewrite app_cons. simpl. now rewrite Hc, (IH Hx).
Qed.

Lemma split_join (sep : Ascii.ascii) (l : list string) :
  l <> [] -> Forall (fun x => has_char sep x = false) l ->
  split sep (join sep l) = l.
Proof.
  induction l as [|x l IH]; [contradiction|]. intros _ H.
  inversion H as [|? ? Hx Hl]; subst.
  destruct l as [|y l]; [now apply split_one|].
  rewrite join_cons by discriminate.
  rewrite split_app_sep by exact Hx. now rewrite IH.
Qed.

Lemma join_app (sep : Ascii.ascii) (a b : list string) :
  a <> [] -> b <> [] ->
  join sep (a ++ b) = join sep a +:+ String sep (join sep b).
Proof.
  induction a as [|x a IH]; [contradiction|]. intros _ Hb.
  destruct a as [|y a].
  - simpl app. now rewrite join_cons.
  - change ((x :: y :: a) ++ b) with (x :: ((y :: a) ++ b)).
    rewrite join_cons by discriminate.
    rewrite IH by (discriminate || exact Hb).
    rewrite (join_cons sep x (y :: a)) by discriminate.
    now rewrite app_assoc.
Qed.

(** The debug-log reader returns the last lines of the file.  The line
    count it reports is one more than the number of newlines.  Asked for at
    least as many lines as the file has, or for zero lines, it returns
    the whole text; asked for fewer, it returns exactly that many lines,
    the ones after the newline that ends the rest of the text; asked for a
    negative number, it drops that many lines from the start instead.  A
    missing file gives the fixed notice and an unreadable one the error
    text, both with a line count of zero. *)
Theorem debug_log_is_the_tail_of_the_file (content : string) (lines : Z) :
  dl_lines (getPluginDebugLog (LogText content) lines)
    = S (count_char newline content) /\
  (lines = 0 \/ Z.of_nat (S (count_char newline content)) <= lines ->
   dl_log (getPluginDebugLog (LogText content) lines) = content) /\
  (0 < lines < Z.of_nat (S (count_char newline content)) ->
   exists before,
     content
     = before +:+ String newline
                    (dl_log (getPluginDebugLog (LogText content) lines)) /\
     Z.of_nat
       (length (split newline
                  (dl_log (getPluginDebugLog (LogText content) lines))))
     = lines) /\
  (lines < 0 ->
   dl_log (getPluginDebugLog (LogText content) lines)
   = join newline (drop (Z.to_nat (- lines)) (split newline content))) /\
  getPluginDebugLog LogMissing lines = DebugLog NO_DEBUG_LOG 0 /\
  (forall message,
     getPluginDebugLog (LogUnreadable message) lines
     = DebugLog ("Error reading log: " +:+ message) 0).
Proof.
  pose proof (length_split newline content) as Hlen.
  simpl. rewrite Hlen.
  split; [reflexivity|]. split; [|split; [|split; [|split]]].
  - intros Hall. unfold slice_from. rewrite Hlen.
    replace (Z.to_nat _) with 0%nat.
    + apply join_split.
    + destruct (Z.ltb_spec (- lines) 0); lia.
  - intros Hfew. unfold slice_from. rewrite Hlen.
    destruct (Z.ltb_spec (- lines) 0); [|lia].
    set (k := Z.to_nat (Z.max (Z.of_nat (S (count_char newline content))
                               + - lines) 0)).
    assert (Hk : (0 < k < length (split newline content))%nat)
      by (unfold k; lia).
    assert (Hdrop : drop k (split newline content) <> []).
    { intros E. apply (f_equal length) in E.
      rewrite length_drop in E. simpl in E. lia. }
    assert (Htake : take k (split newline content) <> []).
    { intros E. apply (f_equal length) in E.
      rewrite length_take in E. simpl in E. lia. }
    exists (join newline (take k (split newline content))). split.
    + rewrite <- join_app by assumption.
      rewrite take_drop. symmetry. apply join_split.
    + rewrite split_join; [|exact Hdrop|].
      * rewrite length_drop. unfold k. lia.
      * apply Forall_drop, split_clean.
  - intros Hneg. unfold slice_from. rewrite Hlen.
    destruct (Z.ltb_spec (- lines) 0); [lia|].
    destruct (Z.min_spec (- lines) (Z.of_nat (S (count_char newline content))))
      as [[_ ->]|[Hge ->]]; [reflexivity|].
    rewrite !drop_ge; [reflexivity| |]; lia.
  - reflexivity.
  - reflexivity.
Qed.

Lemma debug_log_is_the_tail_of_the_file_witness :
  exists before,
    three_lines
    = before +:+ String newline
                   (dl_log (getPluginDebugLog (LogText three_lines) 2)) /\
    dl_log (getPluginDebugLog (LogText three_lines) 2)
    = "second" +:+ String newline "third".
Proof.
  destruct (proj1 (proj2 (proj2 (debug_log_is_the_tail_of_the_file
                                   three_lines 2))))
    as (before & Hcontent & _).
  - simpl. lia.
  - exists before. split; [exact Hcontent|reflexivity].
Defined.

(** *** Source edits *)

Lemma find_first_spec (needle s before after : string) :
  find_first needle s = Some (before, after) ->
  s = before +:+ needle +:+ after /\
  forall before' after',
    s = before' +:+ needle +:+ after' ->
    (String.length before <= String.length before')%nat.
Proof.
  revert before after. induction s as [|c s IH]; intros before after.
  - cbn [find_first]. destruct (String.prefix needle "") eqn:Hp;
      [|discriminate].
    intros E. injection E as <- <-. split; [|intros; simpl; lia].
    rewrite app_nil_l. symmetry. apply (prefix_rest needle "" Hp).
  - cbn [find_first]. destruct (String.prefix needle (String c s)) eqn:Hp.
    + intros E. injection E as <- <-. split; [|intros; simpl; lia].
      rewrite app_nil_l. symmetry. apply (prefix_rest _ _ Hp).
    + destruct (find_first needle s) as [[b a]|]; [|discriminate].
      intros E. injection E as <- <-.
      destruct (IH b a eq_refl) as [Hs Hmin]. split.
      * rewrite app_cons. now f_equal.
      * intros before' after' E. destruct before' as [|c' before'].
        -- rewrite app_nil_l in E. rewrite E, prefix_app in Hp. discriminate.
        -- rewrite app_cons in E. injection E as _ E.
           specialize (Hmin _ _ E). simpl. lia.
Qed.

Lemma includes_find_first (needle s : string) :
  includes needle s = true <-> is_Some (find_first needle s).
Proof.
  induction s as [|c s IH].
  - cbn [includes find_first].
    destruct (String.prefix needle ""); simpl; split;
      try discriminate; eauto. intros [x H]. discriminate.
  - cbn [includes find_first].
    destruct (String.prefix needle (String c s)); simpl; [split; eauto|].
    rewrite IH. destruct (find_first needle s) as [[b a]|]; split; eauto;
      intros [x H]; discriminate.
Qed.

Lemma expand_literal (matched before after replacement : string) :
  has_char dollar replacement = false ->
  expand matched before after replacement = replacement.
Proof.
  induction replacement as [|c r IH]; [reflexivity|]. simpl. intros H.
  apply orb_false_iff in H as [Hc Hr]. rewrite Hc. now rewrite IH.
Qed.

(** An edit is refused, and nothing is written, when the file cannot be
    read or does not contain the old text.  Otherwise the text handed to
    the file system is the file's text with the first occurrence of the old
    text, and only that one, replaced; a new text without a dollar sign
    is put there literally. *)
Theorem edit_replaces_first_occurrence
    (file : sourceFile) (content old_text new_text : string) :
  (forall message,
     sf_read file = inl message ->
     edit_source_file file old_text new_text = (EditFailed message, None)) /\
  (sf_read file = inr content ->
   includes old_text content = false ->
   edit_source_file file old_text new_text = (EditNotFound, None)) /\
  (sf_read file = inr content ->
   includes old_text content = true ->
   exists before after,
     content = before +:+ old_text +:+ after /\
     (forall before' after',
        content = before' +:+ old_text +:+ after' ->
        (String.length before <= String.length before')%nat) /\
     snd (edit_source_file file old_text new_text)
     = Some (before +:+ expand old_text before after new_text +:+ after) /\
     (has_char dollar new_text = false ->
      snd (edit_source_file file old_text new_text)
      = Some (before +:+ new_text +:+ after)) /\
     (sf_write_error file = None ->
      fst (edit_source_file file old_text new_text) = EditDone)).
Proof.
  unfold edit_source_file. split; [|split].
  - intros message ->. reflexivity.
  - intros -> ->. reflexivity.
  - intros -> Hin. rewrite Hin. simpl.
    destruct (proj1 (includes_find_first old_text content) Hin)
      as [[before after] Hfind].
    destruct (find_first_spec _ _ _ _ Hfind) as [Hcontent Hfirst].
    exists before, after. split; [exact Hcontent|]. split; [exact Hfirst|].
    unfold replace_first. rewrite Hfind.
    destruct (sf_write_error file); simpl;
      (split; [reflexivity|]); (split; [|try discriminate; reflexivity]);
      intros Hlit; now rewrite expand_literal.
Qed.

Lemma edit_replaces_first_occurrence_witness :
  edit_source_file (source_with "int a = 1; int b = 1;") "= 1" "= 2"
  = (EditDone, Some "int a = 2; int b = 1;") /\
  exists before after,
    "int a = 1; int b = 1;" = before +:+ "= 1" +:+ after /\
    snd (edit_source_file (source_with "int a = 1; int b = 1;") "= 1" "= 2")
    = Some (before +:+ "= 2" +:+ after).
Proof.
  split; [reflexivity|].
  destruct (proj2 (proj2 (edit_replaces_first_occurrence
                            (source_with "int a = 1; int b = 1;")
                            "int a = 1; int b = 1;" "= 1" "= 2"))
              eq_refl eq_refl)
    as (before & after & Hcontent & _ & _ & Hlit & _).
  exists before, after. split; [exact Hcontent|]. now apply Hlit.
Defined.

(** The new text of an edit is a replacement pattern, not a literal: a
    new text that is ["$&"] writes the file back unchanged, and a ["$$"]
    in a new text is written as a single dollar sign. *)
Theorem edit_expands_dollar_patterns
    (file : sourceFile) (content old_text left right : string) :
  sf_read file = inr content ->
  includes old_text content = true ->
  has_char dollar left = false ->
  has_char dollar right = false ->
  snd (edit_source_file file old_text (String dollar (String ampersand "")))
    = Some content /\
  exists before after,
    content = before +:+ old_text +:+ after /\
    snd (edit_source_file file old_text
           (left +:+ String dollar (String dollar right)))
    = Some (before +:+ (left +:+ String dollar right) +:+ after).
Proof.
  intros Hread Hin Hleft Hright. unfold edit_source_file.
  rewrite Hread, Hin. simpl.
  destruct (proj1 (includes_find_first old_text content) Hin)
    as [[before after] Hfind].
  destruct (find_first_spec _ _ _ _ Hfind) as [Hcontent _].
  unfold replace_first. rewrite Hfind.
  assert (Hexp : forall tail,
    expand old_text before after (left +:+ tail)
    = left +:+ expand old_text before after tail).
  { intros tail. induction left as [|c l IH]; [reflexivity|].
    simpl in Hleft. apply orb_false_iff in Hleft as [Hc Hl].
    rewrite !app_cons. simpl. rewrite Hc. now rewrite IH. }
  split.
  - destruct (sf_write_error file); simpl; rewrite app_nil_r;
      now rewrite <- Hcontent.
  - exists before, after. split; [exact Hcontent|].
    rewrite Hexp. cbn [expand]. rewrite !Ascii.eqb_refl.
    rewrite (expand_literal _ _ _ right Hright).
    now destruct (sf_write_error file).
Qed.

Lemma edit_expands_dollar_patterns_witness :
  edit_source_file (source_with "cost: X") "X" "$$5"
  = (EditDone, Some "cost: $5").
Proof.
  destruct (edit_expands_dollar_patterns (source_with "cost: X") "cost: X"
              "X" "" "5" eq_refl eq_refl eq_refl eq_refl)
    as (_ & before & after & _ & Hwritten).
  reflexivity.
Defined.

End ToolFacts.

(** ** Recovery: the watcher, the two polling loops, the order of effects *)

Module RecoveryExtras.

Import Recovery Scenario Aux Notions RecoveryFacts.

(** At most one watcher runs.  After any sequence of calls of
    [startDialogWatcher] and [stopDialogWatcher] and of interval ticks,
    the active intervals are exactly the handle the handler remembers, if
    any; starting a running watcher and stopping a stopped one change
    nothing; stopping leaves no interval behind, and a tick of an interval
    that is not active dismisses nothing. *)
Theorem at_most_one_watcher (history : list wop) (h : nat) :
  intervals (interleave dinit history)
    = match dialogWatcherInterval (interleave dinit history) with
      | Some h' => {[h']}
      | None => ∅
      end /\
  startDialogWatcher (startDialogWatcher (interleave dinit history))
    = startDialogWatcher (interleave dinit history) /\
  stopDialogWatcher (stopDialogWatcher (interleave dinit history))
    = stopDialogWatcher (interleave dinit history) /\
  intervals (stopDialogWatcher (interleave dinit history)) = ∅ /\
  intervals (startDialogWatcher (interleave dinit history)) <> ∅ /\
  (h ∉ intervals (interleave dinit history) ->
   on_interval (interleave dinit history) h = interleave dinit history).
Proof.
  pose proof (history_ok history) as Hok.
  set (st := interleave dinit history) in *.
  split; [exact Hok|]. split; [|split; [|split; [|split]]].
  - unfold startDialogWatcher at 2.
    destruct (dialogWatcherInterval st) eqn:E;
      unfold startDialogWatcher; simpl; now rewrite ?E.
  - unfold stopDialogWatcher at 2.
    destruct (dialogWatcherInterval st) eqn:E;
      unfold stopDialogWatcher; simpl; now rewrite ?E.
  - apply (stop_stopped st Hok).
  - pose proof (start_ok st Hok) as Hstart. unfold watcher_ok in Hstart.
    rewrite Hstart. unfold startDialogWatcher.
    destruct (dialogWatcherInterval st) eqn:E.
    + rewrite E. intros H0. eapply (not_elem_of_empty (C := gset nat)).
      rewrite <- H0. now apply elem_of_singleton.
    + simpl. intros H0. eapply (not_elem_of_empty (C := gset nat)).
      rewrite <- H0. now apply elem_of_singleton.
  - intros Hnot. unfold on_interval.
    now rewrite bool_decide_eq_false_2.
Qed.

Lemma elapsed_from_ge (lag : nat -> N) (j k : nat) (e : Z) :
  e <= elapsed_from lag k e j.
Proof.
  revert k e. induction j as [|j IH]; intros k e; simpl; [lia|].
  specialize (IH (S k) (e + 1000 + Z.of_N (lag (S k)))). lia.
Qed.

Lemma shift_poll (lag : nat -> N) (seen : nat -> bool) (k : nat)
    (e limit : Z) :
  seen k = false ->
  (exists j, seen (S k + j)%nat = true /\
             elapsed_from lag (S k) (e + 1000 + Z.of_N (lag (S k))) j < limit)
  <->
  (exists j, seen (k + j)%nat = true /\ elapsed_from lag k e j < limit).
Proof.
  intros Hk. split.
  - intros (j & Hj & Ht). exists (S j).
    now rewrite <- Nat.add_succ_comm.
  - intros ([|j] & Hj & Ht).
    + rewrite Nat.add_0_r in Hj. congruence.
    + exists j. now rewrite Nat.add_succ_comm.
Qed.

Lemma late_poll (lag : nat -> N) (seen : nat -> bool) (k : nat)
    (e limit : Z) :
  ~ e < limit ->
  ~ exists j, seen (k + j)%nat = true /\ elapsed_from lag k e j < limit.
Proof.
  intros Hlate (j & _ & Ht). pose proof (elapsed_from_ge lag j k e). lia.
Qed.

Lemma readyLoop_true env maxWaitMs k elapsed st :
  snd (readyLoop env maxWaitMs k elapsed st) = true <->
  exists j, ready_at env (k + j)%nat = true /\
            elapsed_from (r_ready_lag env) k elapsed j < maxWaitMs.
Proof.
  funelim (readyLoop env maxWaitMs k elapsed st).
  - simpl. split; [discriminate|].
    intros H. exfalso. revert H. now apply late_poll.
  - rewrite H. apply shift_poll. unfold ready_at. now rewrite Heq.
  - rewrite H. apply shift_poll. unfold ready_at. rewrite Heq0, Heq.
    reflexivity.
  - simpl. split; [intros _|reflexivity]. exists 0%nat.
    rewrite Nat.add_0_r. unfold ready_at. rewrite Heq1, Heq0, Heq.
    split; [reflexivity|]. simpl. assumption.
  - rewrite H. apply shift_poll. unfold ready_at. rewrite Heq1, Heq0, Heq.
    reflexivity.
Qed.

(** [waitForPremiereReady] answers [true] exactly when some poll finds
    the host process running, no modal dialog and a main window, and that
    poll starts before the budget has run out; poll [j] starts at
    [ready_elapsed env j], at least [1000 * j] ms after the call. *)
Theorem ready_wait_succeeds_iff_a_poll_in_time_is_ready (env : renv)
    (maxWaitMs : Z) (st : dstate) :
  (snd (waitForPremiereReady env maxWaitMs st) = true <->
   exists j, ready_at env j = true /\ ready_elapsed env j < maxWaitMs) /\
  (forall j, 1000 * Z.of_nat j <= ready_elapsed env j).
Proof.
  split.
  - unfold waitForPremiereReady, ready_elapsed.
    apply (readyLoop_true env maxWaitMs 0 _ st).
  - intros j. unfold ready_elapsed.
    assert (Hgen : forall j k e, e + 1000 * Z.of_nat j
                                 <= elapsed_from (r_ready_lag env) k e j).
    { clear j. induction j as [|j IH]; intros k e; simpl elapsed_from; [lia|].
      specialize (IH (S k) (e + 1000 + Z.of_N (r_ready_lag env (S k)))).
      lia. }
    specialize (Hgen j 0%nat (Z.of_N (r_ready_lag env 0))). lia.
Qed.

(** *** What the loops do to the outside *)

Lemma probes_app (a b : list effect) :
  probes (a ++ b) = (probes a + probes b)%nat.
Proof. unfold probes. now rewrite List.filter_app, length_app. Qed.

Lemma quiet_ticks : Forall quiet [DismissCrashReporter; DismissRecoveryDialog].
Proof. repeat constructor; discriminate. Qed.

Lemma calls_apply_wop (st : dstate) (o : wop) :
  exists a, calls (apply_wop st o) = calls st ++ a /\
            Forall quiet a /\ probes a = 0%nat.
Proof.
  destruct o as [| |h]; simpl.
  - exists []. rewrite app_nil_r. unfold startDialogWatcher.
    destruct (dialogWatcherInterval st); repeat split; constructor.
  - exists []. rewrite app_nil_r. unfold stopDialogWatcher.
    destruct (dialogWatcherInterval st); repeat split; constructor.
  - unfold on_interval. destruct (bool_decide _).
    + eexists. split; [reflexivity|]. split; [exact quiet_ticks|reflexivity].
    + exists []. rewrite app_nil_r. repeat split; constructor.
Qed.

Lemma calls_interleave (ops : list wop) (st : dstate) :
  exists a, calls (interleave st ops) = calls st ++ a /\
            Forall quiet a /\ probes a = 0%nat.
Proof.
  revert st. induction ops as [|o ops IH]; intros st.
  - exists []. simpl. rewrite app_nil_r. repeat split; constructor.
  - destruct (calls_apply_wop st o) as (a & Ha & Hq & Hp).
    destruct (IH (apply_wop st o)) as (b & Hb & Hqb & Hpb).
    exists (a ++ b). unfold interleave in *. simpl.
    rewrite Hb, Ha, <- app_assoc. split; [reflexivity|]. split.
    + apply Forall_app; now split.
    + rewrite probes_app. lia.
Qed.

Lemma calls_stop (st : dstate) : calls (stopDialogWatcher st) = calls st.
Proof. unfold stopDialogWatcher. now destruct (dialogWatcherInterval st). Qed.

Lemma calls_start (st : dstate) : calls (startDialogWatcher st) = calls st.
Proof. unfold startDialogWatcher. now destruct (dialogWatcherInterval st). Qed.

Lemma calls_poll (st : dstate) (es : list effect) (ops : list wop) :
  Forall quiet es ->
  exists a, calls (suspend (perform st es) 1000 ops) = calls st ++ a /\
            Forall quiet a /\ probes a = probes es.
Proof.
  intros Hes. unfold suspend.
  destruct (calls_interleave ops (perform (perform st es) [Sleep 1000]))
    as (a & Ha & Hq & Hp).
  exists (es ++ Sleep 1000 :: a). rewrite Ha. simpl.
  rewrite <- !app_assoc. split; [reflexivity|]. split.
  - apply Forall_app. split; [assumption|].
    constructor; [split; discriminate|assumption].
  - rewrite probes_app. unfold probes at 2. simpl.
    fold (probes a). lia.
Qed.

Lemma polls_left_step (maxWaitMs elapsed : Z) (lag : N) :
  elapsed < maxWaitMs ->
  (S (polls_left maxWaitMs (elapsed + 1000 + Z.of_N lag))
   <= polls_left maxWaitMs elapsed)%nat.
Proof.
  intros Hlt. unfold polls_left.
  assert (H1 : (maxWaitMs - (elapsed + 1000 + Z.of_N lag) + 999) / 1000
               <= (maxWaitMs - elapsed + 999) / 1000 - 1).
  { Z.to_euclidean_division_equations. lia. }
  assert (H2 : 1 <= (maxWaitMs - elapsed + 999) / 1000).
  { Z.to_euclidean_division_equations. lia. }
  lia.
Qed.

Ltac quiet_list := repeat constructor; discriminate.

Lemma readyLoop_calls env maxWaitMs k elapsed st :
  exists a, calls (fst (readyLoop env maxWaitMs k elapsed st)) = calls st ++ a /\
            Forall quiet a /\
            (probes a <= polls_left maxWaitMs elapsed)%nat.
Proof.
  funelim (readyLoop env maxWaitMs k elapsed st).
  - exists []. simpl. rewrite app_nil_r.
    split; [reflexivity|]. split; [apply List.Forall_nil|apply Nat.le_0_l].
  - destruct H as (b & Hb & Hqb & Hpb).
    destruct (calls_poll st [DismissCrashReporter; ProcessProbe]
                (r_ready_ops env k)) as (a & Ha & Hqa & Hpa);
      [quiet_list|].
    exists (a ++ b). rewrite Hb, Ha, <- app_assoc.
    split; [reflexivity|]. split; [apply Forall_app; now split|].
    rewrite probes_app, Hpa.
    pose proof (polls_left_step maxWaitMs elapsed (r_ready_lag env (S k)) l).
    change (probes [DismissCrashReporter; ProcessProbe]) with 1%nat. lia.
  - destruct H as (b & Hb & Hqb & Hpb).
    destruct (calls_poll st [DismissCrashReporter; ProcessProbe;
                             DismissRecoveryDialog; ModalProbe]
                (r_ready_ops env k)) as (a & Ha & Hqa & Hpa);
      [quiet_list|].
    exists (a ++ b). rewrite Hb, Ha, <- app_assoc.
    split; [reflexivity|]. split; [apply Forall_app; now split|].
    rewrite probes_app, Hpa.
    pose proof (polls_left_step maxWaitMs elapsed (r_ready_lag env (S k)) l).
    change (probes [DismissCrashReporter; ProcessProbe;
                    DismissRecoveryDialog; ModalProbe]) with 1%nat. lia.
  - eexists. simpl. split; [reflexivity|]. split; [quiet_list|].
    pose proof (polls_left_step maxWaitMs elapsed 0%N l).
    change (probes [DismissCrashReporter; ProcessProbe;
                    DismissRecoveryDialog; ModalProbe; WindowProbe])
      with 1%nat. lia.
  - destruct H as (b & Hb & Hqb & Hpb).
    destruct (calls_poll st [DismissCrashReporter; ProcessProbe;
                             DismissRecoveryDialog; ModalProbe; WindowProbe]
                (r_ready_ops env k)) as (a & Ha & Hqa & Hpa);
      [quiet_list|].
    exists (a ++ b). rewrite Hb, Ha, <- app_assoc.
    split; [reflexivity|]. split; [apply Forall_app; now split|].
    rewrite probes_app, Hpa.
    pose proof (polls_left_step maxWaitMs elapsed (r_ready_lag env (S k)) l).
    change (probes [DismissCrashReporter; ProcessProbe;
                    DismissRecoveryDialog; ModalProbe; WindowProbe])
      with 1%nat. lia.
Qed.

Lemma polls_left_mono (maxWaitMs e e' : Z) :
  e <= e' -> (polls_left maxWaitMs e' <= polls_left maxWaitMs e)%nat.
Proof.
  intros Hle. unfold polls_left.
  assert ((maxWaitMs - e' + 999) / 1000 <= (maxWaitMs - e + 999) / 1000)
    by (apply Z.div_le_mono; lia).
  lia.
Qed.

(** [waitForPremiereReady] only looks and dismisses: what it adds to the
    log of outside calls holds no kill and no launch, and at most one
    process probe per second of its budget.  With no budget it does
    nothing and answers [false]. *)
Theorem ready_wait_polls_once_a_second_and_only_looks (env : renv)
    (maxWaitMs : Z) (st : dstate) :
  (exists added,
     calls (fst (waitForPremiereReady env maxWaitMs st)) = calls st ++ added /\
     Forall quiet added /\
     (probes added <= polls_left maxWaitMs 0)%nat) /\
  (maxWaitMs <= 0 -> waitForPremiereReady env maxWaitMs st = (st, false)).
Proof.
  split.
  - unfold waitForPremiereReady.
    destruct (readyLoop_calls env maxWaitMs 0 (Z.of_N (r_ready_lag env 0)) st)
      as (a & Ha & Hq & Hp).
    exists a. split; [exact Ha|]. split; [exact Hq|].
    etransitivity; [exact Hp|]. apply polls_left_mono. lia.
  - intros Hle. unfold waitForPremiereReady. simp readyLoop.
    destruct (Z_lt_dec (Z.of_N (r_ready_lag env 0)) maxWaitMs) as [Hlt|Hge];
      [lia|reflexivity].
Qed.

Lemma ready_wait_polls_once_a_second_and_only_looks_witness :
  waitForPremiereReady Scenario.never_ready 0 dinit = (dinit, false).
Proof.
  apply (ready_wait_polls_once_a_second_and_only_looks
           Scenario.never_ready 0 dinit).
  lia.
Defined.

Lemma peerLoop_true env k elapsed st :
  snd (peerLoop env k elapsed st) = RestartResult true RESTARTED <->
  exists j, r_conn env (k + j)%nat = true /\
            elapsed_from (r_peer_lag env) k elapsed j < 60000.
Proof.
  funelim (peerLoop env k elapsed st).
  - simpl. split; [discriminate|].
    intros H. exfalso. revert H. now apply late_poll.
  - simpl. split; [intros _|reflexivity]. exists 0%nat.
    rewrite Nat.add_0_r. split; [assumption|]. simpl. assumption.
  - rewrite H. now apply shift_poll.
Qed.

Lemma peerLoop_calls env k elapsed st :
  exists a, calls (fst (peerLoop env k elapsed st)) = calls st ++ a /\
            Forall quiet a /\ probes a = 0%nat.
Proof.
  funelim (peerLoop env k elapsed st).
  - exists []. simpl. rewrite calls_stop, app_nil_r.
    split; [reflexivity|]. split; [apply List.Forall_nil|reflexivity].
  - exists []. simpl. rewrite calls_stop, app_nil_r.
    split; [reflexivity|]. split; [apply List.Forall_nil|reflexivity].
  - destruct H as (b & Hb & Hqb & Hpb).
    destruct (calls_interleave (r_peer_ops env k) (perform st [Sleep 1000]))
      as (a & Ha & Hqa & Hpa).
    exists (Sleep 1000 :: a ++ b). rewrite Hb. unfold suspend. rewrite Ha.
    simpl. rewrite <- !app_assoc. split; [reflexivity|]. split.
    + constructor; [split; discriminate|]. apply Forall_app; now split.
    + change (Sleep 1000 :: a ++ b) with ([Sleep 1000] ++ (a ++ b)).
      rewrite !probes_app, Hpa, Hpb. reflexivity.
Qed.

(** Which of its three answers [restartPremiere] gives.  It reports
    success exactly when a readiness poll within 90 s finds the host ready
    and then a look at the panel connection within 60 s finds it set; "did
    not become ready" exactly when no readiness poll in time succeeds; and
    "panel did not connect" in the remaining case. *)
Theorem restart_answer_is_decided_by_the_two_waits (env : renv)
    (st : dstate) :
  let host_ready :=
    exists j, ready_at env j = true /\ ready_elapsed env j < 90000 in
  let panel_seen :=
    exists k, r_conn env k = true /\ peer_elapsed env k < 60000 in
  (snd (restartPremiere env st) = RestartResult true RESTARTED
   <-> host_ready /\ panel_seen) /\
  (snd (restartPremiere env st) = RestartResult false NOT_READY
   <-> ~ host_ready) /\
  (snd (restartPremiere env st) = RestartResult false NO_PANEL
   <-> host_ready /\ ~ panel_seen).
Proof.
  intros host_ready panel_seen.
  pose proof (readyLoop_true env 90000 0 (Z.of_N (r_ready_lag env 0))
                (relaunch env st)) as Hready.
  fold (waitForPremiereReady env 90000 (relaunch env st)) in Hready.
  change (exists j, ready_at env (0 + j)%nat = true /\
            elapsed_from (r_ready_lag env) 0 (Z.of_N (r_ready_lag env 0)) j
            < 90000) with host_ready in Hready.
  unfold restartPremiere.
  destruct (waitForPremiereReady env 90000 (relaunch env st))
    as [st5 ready]. simpl in Hready.
  destruct ready; simpl.
  - pose proof (peerLoop_true env 0 (Z.of_N (r_peer_lag env 0))
                  (interleave st5 (r_resumed env))) as Hpeer.
    change (exists j, r_conn env (0 + j)%nat = true /\
              elapsed_from (r_peer_lag env) 0 (Z.of_N (r_peer_lag env 0)) j
              < 60000) with panel_seen in Hpeer.
    assert (Hhost : host_ready) by now apply Hready.
    destruct (peerLoop_result env 0 (Z.of_N (r_peer_lag env 0))
                (interleave st5 (r_resumed env))) as [Hres|Hres];
      rewrite Hres in *.
    + assert (Hpanel : panel_seen) by now apply Hpeer.
      repeat split; try discriminate; try tauto.
    + assert (Hno : ~ panel_seen).
      { intros Hp. apply Hpeer in Hp. discriminate Hp. }
      repeat split; try discriminate; try tauto.
  - assert (Hno : ~ host_ready).
    { intros Hh. apply Hready in Hh. discriminate Hh. }
    repeat split; try discriminate; try tauto.
Qed.

(** The order of what a restart does outside.  Whatever the watcher and
    other callers do in between, [restartPremiere] kills the host once,
    sleeps 3 s, dismisses the crash reporter and launches the project
    once, in this order and before its first readiness probe; nothing it
    does before, between or after is another kill or launch. *)
Theorem restart_kills_once_then_launches_once (env : renv) (st : dstate) :
  exists between after,
    calls (fst (restartPremiere env st))
      = calls st ++ Pkill :: Sleep 3000 :: between
          ++ DismissCrashReporter :: OpenProject :: after /\
    Forall quiet between /\ probes between = 0%nat /\
    Forall quiet after /\ (probes after <= 90)%nat.
Proof.
  destruct (calls_interleave (r_settle env)
              (perform (perform (startDialogWatcher st) [Pkill]) [Sleep 3000]))
    as (between & Hb & Hqb & Hpb).
  assert (Hrelaunch : calls (relaunch env st)
                      = calls st ++ Pkill :: Sleep 3000 :: between
                          ++ [DismissCrashReporter; OpenProject]).
  { unfold relaunch, suspend. simpl. rewrite Hb. simpl.
    rewrite calls_start, <- !app_assoc. reflexivity. }
  destruct (readyLoop_calls env 90000 0 (Z.of_N (r_ready_lag env 0))
              (relaunch env st)) as (a & Ha & Hqa & Hpa).
  fold (waitForPremiereReady env 90000 (relaunch env st)) in Ha.
  assert (Hpa' : (probes a <= 90)%nat).
  { etransitivity; [exact Hpa|].
    etransitivity; [apply (polls_left_mono 90000 0); lia|].
    vm_compute. lia. }
  unfold restartPremiere.
  destruct (waitForPremiereReady env 90000 (relaunch env st))
    as [st5 ready]. cbn [fst] in Ha.
  destruct (calls_interleave (r_resumed env) st5) as (c & Hc & Hqc & Hpc).
  assert (Hend : exists d,
            calls (fst (if negb ready
                        then (stopDialogWatcher (interleave st5 (r_resumed env)),
                              RestartResult false NOT_READY)
                        else peerLoop env 0 (Z.of_N (r_peer_lag env 0))
                               (interleave st5 (r_resumed env))))
            = calls (interleave st5 (r_resumed env)) ++ d /\
            Forall quiet d /\ probes d = 0%nat).
  { destruct ready; simpl.
    - apply peerLoop_calls.
    - exists []. rewrite calls_stop, app_nil_r.
      split; [reflexivity|]. split; [apply List.Forall_nil|reflexivity]. }
  destruct Hend as (d & Hd & Hqd & Hpd).
  exists between, (a ++ c ++ d).
  rewrite Hd, Hc, Ha, Hrelaunch.
  split.
  { rewrite <- !app_assoc. f_equal. simpl. do 2 f_equal.
    rewrite <- !app_assoc. reflexivity. }
  split; [assumption|]. split; [assumption|]. split.
  - repeat (apply Forall_app; split); assumption.
  - rewrite !probes_app. lia.
Qed.

End RecoveryExtras.

(** ** The pipeline: the export poll, the shape of the report, the order
    of operations *)

Module PipelineExtras.

Import Recovery Pipeline Scenario Aux Notions PipelineFacts.

Lemma wait_total_app (a b : list op) :
  wait_total (a ++ b) = wait_total a + wait_total b.
Proof.
  induction a as [|o a IH]; [reflexivity|].
  destruct o; simpl; lia.
Qed.

Lemma looks_app (a b : list op) : looks (a ++ b) = (looks a + looks b)%nat.
Proof.
  induction a as [|o a IH]; [reflexivity|].
  destruct o; simpl; lia.
Qed.

Lemma stats_app (a b : list op) : stats (a ++ b) = (stats a + stats b)%nat.
Proof.
  induction a as [|o a IH]; [reflexivity|].
  destruct o; simpl; lia.
Qed.

(** The poll over [n] attempts: what it costs at most, and what it costs
    when the file is never there or is there and never stable. *)
Lemma export_poll_budget (env : penv) (n i : nat) (s : pstate) :
  exists ops c,
    export_poll env i n s = (emit s ops, c) /\
    (looks ops <= n)%nat /\ (stats ops <= 2 * looks ops)%nat /\
    wait_total ops <= 3000 * Z.of_nat n /\
    ((forall j, (j < n)%nat -> a_exists (e_export env (i + j)) = false) ->
     c = Normal false /\ looks ops = n /\ stats ops = 0%nat /\
     wait_total ops = 1000 * Z.of_nat n) /\
    ((forall j, (j < n)%nat ->
                a_exists (e_export env (i + j)) = true /\
                sampled (e_export env (i + j)) /\
                ~ stable (e_export env (i + j))) ->
     c = Normal false /\ looks ops = n /\ stats ops = (2 * n)%nat /\
     wait_total ops = 3000 * Z.of_nat n).
Proof.
  revert i s. induction n as [|n IH]; intros i s.
  - exists [], (Normal false). rewrite emit_nil. simpl. repeat split; lia.
  - rewrite export_poll_step.
    assert (Hrest1 : (forall j, (j < S n)%nat ->
                        a_exists (e_export env (i + j)) = false) ->
                     a_exists (e_export env i) = false /\
                     forall j, (j < n)%nat ->
                        a_exists (e_export env (S i + j)) = false).
    { intros H. split; [rewrite <- (Nat.add_0_r i); apply H; lia|].
      intros j Hj. rewrite Nat.add_succ_comm. apply H. lia. }
    assert (Hrest2 : (forall j, (j < S n)%nat ->
                        a_exists (e_export env (i + j)) = true /\
                        sampled (e_export env (i + j)) /\
                        ~ stable (e_export env (i + j))) ->
                     (a_exists (e_export env i) = true /\
                      sampled (e_export env i) /\
                      ~ stable (e_export env i)) /\
                     forall j, (j < n)%nat ->
                        a_exists (e_export env (S i + j)) = true /\
                        sampled (e_export env (S i + j)) /\
                        ~ stable (e_export env (S i + j))).
    { intros H. split; [rewrite <- (Nat.add_0_r i); apply H; lia|].
      intros j Hj. rewrite Nat.add_succ_comm. apply H. lia. }
    destruct (a_exists (e_export env i)) eqn:He.
    + destruct (a_size1 (e_export env i)) as [e|n1] eqn:H1.
      { eexists _, _. split; [reflexivity|]. simpl.
        split; [lia|]. split; [lia|]. split; [lia|].
        split; intros H; exfalso.
        - apply Hrest1 in H as [H _]. discriminate H.
        - apply Hrest2 in H as [(_ & [Hs|(m1 & m2 & Hs & _)] & _) _];
            congruence. }
      destruct (a_size2 (e_export env i)) as [e|n2] eqn:H2.
      { eexists _, _. split; [reflexivity|]. simpl.
        split; [lia|]. split; [lia|]. split; [lia|].
        split; intros H; exfalso.
        - apply Hrest1 in H as [H _]. discriminate H.
        - apply Hrest2 in H as [(_ & [Hs|(m1 & m2 & _ & Hs)] & _) _];
            congruence. }
      pose proof (stable_check _ n1 n2 He H1 H2) as Hcheck.
      destruct ((n1 =? n2) && (0 <? n1)).
      { eexists _, _. split; [reflexivity|]. simpl.
        split; [lia|]. split; [lia|]. split; [lia|].
        split; intros H; exfalso.
        - apply Hrest1 in H as [H _]. discriminate H.
        - apply Hrest2 in H as [(_ & _ & Hns) _]. now apply Hns, Hcheck. }
      destruct (IH (S i) (emit s [OpExists; OpStat; OpWait 2000; OpStat;
                                  OpWait 1000]))
        as (ops & c & -> & Hl & Hs & Hw & Hnone & Hall).
      rewrite emit_emit. eexists _, c. split; [reflexivity|].
      rewrite looks_app, stats_app, wait_total_app. simpl.
      split; [lia|]. split; [lia|]. split; [lia|]. split.
      * intros H. apply Hrest1 in H as [H _]. discriminate H.
      * intros H. apply Hrest2 in H as [_ H].
        apply Hall in H as (-> & Hl' & Hs' & Hw'). repeat split; lia.
    + destruct (IH (S i) (emit s [OpExists; OpWait 1000]))
        as (ops & c & -> & Hl & Hs & Hw & Hnone & Hall).
      rewrite emit_emit. eexists _, c. split; [reflexivity|].
      rewrite looks_app, stats_app, wait_total_app. simpl.
      split; [lia|]. split; [lia|]. split; [lia|]. split.
      * intros H. apply Hrest1 in H as [_ H].
        apply Hnone in H as (-> & Hl' & Hs' & Hw'). repeat split; lia.
      * intros H. apply Hrest2 in H as [(H & _) _]. discriminate H.
Qed.

(** The wait for the exported file looks for it at most 60 times and
    spends at most 180 s in timers.  When the file never shows up, the
    poll gives up after exactly 60 looks and 60 s without ever reading a
    size; when the file is there and its size never settles, it gives up
    after 120 size reads and exactly 180 s. *)
Theorem export_poll_gives_up_after_60_to_180_seconds (env : penv)
    (s : pstate) :
  exists ops c,
    export_poll env 0 EXPORT_ATTEMPTS s = (emit s ops, c) /\
    (looks ops <= 60)%nat /\ (stats ops <= 2 * looks ops)%nat /\
    wait_total ops <= 180000 /\
    ((forall j, (j < 60)%nat -> a_exists (e_export env j) = false) ->
     c = Normal false /\ looks ops = 60%nat /\ stats ops = 0%nat /\
     wait_total ops = 60000) /\
    ((forall j, (j < 60)%nat ->
                a_exists (e_export env j) = true /\
                sampled (e_export env j) /\ ~ stable (e_export env j)) ->
     c = Normal false /\ looks ops = 60%nat /\ stats ops = 120%nat /\
     wait_total ops = 180000).
Proof.
  destruct (export_poll_budget env EXPORT_ATTEMPTS 0 s)
    as (ops & c & Hrun & Hl & Hs & Hw & Hnone & Hall).
  exists ops, c. split; [exact Hrun|].
  change EXPORT_ATTEMPTS with 60%nat in *.
  split; [exact Hl|]. split; [exact Hs|]. split; [lia|]. split.
  - intros H. destruct (Hnone H) as (Hc & Hl' & Hs' & Hw').
    repeat split; [exact Hc|exact Hl'|exact Hs'|lia].
  - intros H. destruct (Hall H) as (Hc & Hl' & Hs' & Hw').
    repeat split; [exact Hc|exact Hl'|exact Hs'|lia].
Qed.

(** *** Walking the paths of a run *)

Lemma export_poll_throw (env : penv) (n i : nat) (s s' : pstate)
    (m : string) :
  export_poll env i n s = (s', Throw m) ->
  exists j, (j < n)%nat /\ stat_error (e_export env (i + j)) = Some m.
Proof.
  revert i s. induction n as [|n IH]; intros i s; [discriminate|].
  rewrite export_poll_step.
  assert (Hshift : forall s0,
            export_poll env (S i) n s0 = (s', Throw m) ->
            exists j, (j < S n)%nat /\
                      stat_error (e_export env (i + j)) = Some m).
  { intros s0 H. apply IH in H as (j & Hj & Hm). exists (S j).
    rewrite <- Nat.add_succ_comm. split; [lia|exact Hm]. }
  assert (Hhere : stat_error (e_export env i) = Some m ->
            exists j, (j < S n)%nat /\
                      stat_error (e_export env (i + j)) = Some m).
  { intros H. exists 0%nat. rewrite Nat.add_0_r. split; [lia|exact H]. }
  unfold stat_error in Hhere.
  destruct (a_exists (e_export env i)); [|apply Hshift].
  destruct (a_size1 (e_export env i)) as [e|n1].
  { intros H. injection H as _ ->. now apply Hhere. }
  destruct (a_size2 (e_export env i)) as [e|n2].
  { intros H. injection H as _ ->. now apply Hhere. }
  destruct ((n1 =? n2) && (0 <? n1)); [discriminate|apply Hshift].
Qed.

(** The three ways a remote step ends, with what the peer did. *)
Lemma remote_step_outcomes env name cmd prefix l ok e ops d :
  (exists m,
     send_error env cmd = Some m /\
     remote_step env name cmd prefix (st_of l ok e ops d)
     = (st_of (l ++ [starting name]) ok e (ops ++ [OpSend cmd]) d,
        Throw m)) \/
  (exists v,
     e_send env cmd = Fulfilled v /\
     remote_step env name cmd prefix (st_of l ok e ops d)
     = (st_of (l ++ [StepRecord name "success" (Some v) None]) ok e
          (ops ++ [OpSend cmd]) d,
        Normal tt)) \/
  (exists v ev,
     e_send env cmd = Fulfilled v /\ get v "error" = inr ev /\
     remote_step env name cmd prefix (st_of l ok e ops d)
     = (st_of (l ++ [StepRecord name "failed" (Some v) None]) ok
          (Some (prefix +:+ to_string ev)) (ops ++ [OpSend cmd]) d,
        Return)).
Proof.
  rewrite remote_step_eval. unfold send_error.
  destruct (e_send env cmd) as [v|m]; [|left; now exists m].
  destruct (get v "success") as [m|okv] eqn:Hok; [left; now exists m|].
  destruct (truthy okv); [right; left; now exists v|].
  right; right.
  assert (Herr : exists ev, get v "error" = inr ev)
    by (destruct v; try discriminate Hok; simpl; eauto).
  destruct Herr as [ev Herr]. rewrite Herr. now exists v, ev.
Qed.

(** The three ways the last step ends, with what the poll saw. *)
Lemma analyze_export_outcomes env l ok e ops d :
  exists poll,
  Forall poll_op poll /\ wait_total poll <= 180000 /\
  ((exists m j,
      (j < EXPORT_ATTEMPTS)%nat /\ stat_error (e_export env j) = Some m /\
      analyze_export env (st_of l ok e ops d)
      = (st_of (l ++ [starting "analyze_export"]) ok e (ops ++ poll) d,
         Throw m)) \/
   analyze_export env (st_of l ok e ops d)
   = (st_of (l ++ [StepRecord "analyze_export" "failed" None None]) ok
        (Some EXPORT_NOT_READY) (ops ++ poll) d,
      Return) \/
   analyze_export env (st_of l ok e ops d)
   = (st_of (l ++ [StepRecord "analyze_export"
                     (outcome_status (an_success (e_analysis env)))
                     (Some (analysis_value (e_analysis env))) None])
        (an_success (e_analysis env)) e (ops ++ poll ++ [OpAnalyze]) d,
      Return)).
Proof.
  unfold analyze_export. next.
  destruct (export_poll_spec (l ++ [starting "analyze_export"]) ok e ops d
              env EXPORT_ATTEMPTS 0) as (poll & c & Hpoll & Hops & Hc).
  exists poll. split; [exact Hops|]. split.
  { destruct (export_poll_budget env EXPORT_ATTEMPTS 0
                (st_of (l ++ [starting "analyze_export"]) ok e ops d))
      as (ops2 & c2 & Hrun & _ & _ & Hw & _).
    rewrite Hpoll in Hrun. injection Hrun as Hrun _.
    apply app_inv_head in Hrun as <-.
    change EXPORT_ATTEMPTS with 60%nat in Hw. lia. }
  next. rewrite Hpoll.
  destruct c as [[|]| |m]; [| |contradiction|].
  - right; right. cbn [negb]. next. next. next. next.
    rewrite <- app_assoc. reflexivity.
  - right; left. cbn [negb]. next. next. reflexivity.
  - left. apply export_poll_throw in Hpoll as (j & Hj & Hm).
    exists m, j. split; [exact Hj|]. split; [exact Hm|reflexivity].
Qed.

Ltac remote_by leaf :=
  match goal with
  | |- context [remote_step ?env ?n ?c ?p (st_of ?l ?ok ?e ?o ?dd)] =>
      let m := fresh "m" in
      let v := fresh "v" in
      let ev := fresh "ev" in
      let E := fresh "E" in
      let Hsend := fresh "Hsend" in
      let Herr := fresh "Herr" in
      destruct (remote_step_outcomes env n c p l ok e o dd)
        as [(m & Hsend & E)|[(v & Hsend & E)|(v & ev & Hsend & Herr & E)]];
      rewrite E; clear E; [solve [leaf]| exec |solve [leaf]]
  end.

(** Every path of [runAutonomousTestCycle], each ended by [leaf]. *)
Ltac walk env d leaf :=
  unfold runAutonomousTestCycle, run_cycle, cycle, plan, script;
  change (start d) with (st_of [] false None [] d);
  next; rewrite ensure_connected_eval;
  destruct (e_connected env) eqn:Hconn;
    [|destruct (rr_success (snd (restartPremiere (e_recovery env) d)))
        eqn:Hrestart; [|solve [leaf]]];
  (exec; next; remote_by leaf;
   next; remote_by leaf;
   next; rewrite wait_for_processing_eval; exec;
   next; remote_by leaf;
   match goal with
   | |- context [analyze_export ?env (st_of ?l ?ok ?e ?o ?dd)] =>
       let poll := fresh "poll" in
       let Hpoll := fresh "Hpoll" in
       let Hwait := fresh "Hwait" in
       let m := fresh "m" in
       let j := fresh "j" in
       let Hj := fresh "Hj" in
       let Hstat := fresh "Hstat" in
       let E := fresh "E" in
       destruct (analyze_export_outcomes env l ok e o dd)
         as (poll & Hpoll & Hwait & [(m & j & Hj & Hstat & E)|[E|E]]);
       rewrite E; clear E
   end;
   [solve [leaf]
   |solve [leaf]
   |destruct (an_success (e_analysis env)) eqn:Han; cbn [outcome_status];
    solve [leaf]]).

(** The report at the end of a path, field by field. *)
Ltac report :=
  exec; cbn [catch]; unfold st_of;
  cbn [ps_results ps_ops ps_dialog steps error success].

Ltac shape_leaf :=
  report; eexists _, _; split; [reflexivity|];
  cbn [app fmap list_fmap step status];
  split; [repeat constructor|];
  split; [eexists; reflexivity|];
  split; [auto|];
  split; intros H; try discriminate H;
    repeat split; discriminate.

(** The shape of every report.  The steps recorded are an initial part
    of the plan, and at least one; all of them but the last have status
    success; the last is success, failed, or still starting.  It is
    success only when the whole plan ran, and then the report says
    success and holds no error; it is still starting only when an
    exception ended the run, and then the report says failure and holds
    the error. *)
Theorem steps_before_the_last_all_succeeded (env : penv) (d : dstate) :
  exists done final,
    steps (runAutonomousTestCycle env d) = done ++ [final] /\
    Forall (fun r => status r = "success") done /\
    (step <$> done ++ [final]) `prefix_of` plan env /\
    (status final = "success" \/ status final = "failed" \/
     status final = "starting") /\
    (status final = "success" ->
     (step <$> done ++ [final]) = plan env /\
     success (runAutonomousTestCycle env d) = true /\
     error (runAutonomousTestCycle env d) = None) /\
    (status final = "starting" ->
     success (runAutonomousTestCycle env d) = false /\
     error (runAutonomousTestCycle env d) <> None).
Proof.
  walk env d shape_leaf.
Qed.

Ltac all_succeeded H :=
  repeat match type of H with
         | Forall _ (_ :: _) =>
             let Hx := fresh "Hx" in
             apply Forall_cons in H as [Hx H]; cbn [status] in Hx;
             try discriminate Hx
         end.

Ltac success_leaf :=
  report;
  split;
    [cbn [app fmap list_fmap step status];
     split;
       [intros H; try discriminate H;
        (split; [reflexivity|repeat constructor])
       |intros [Hn HF]; try reflexivity; try discriminate Hn;
        all_succeeded HF]
    |intros H; try discriminate H;
     (split; [reflexivity|]); (split; [reflexivity|]);
     rewrite ?app_assoc; apply last_snoc].

(** When a run reports success.  [success] is true exactly when every
    step of the plan is in the report and every one has status success.
    Then no error is set, the analysis gave a positive verdict, and the
    analysis was the last thing the run did. *)
Theorem success_means_every_planned_step_succeeded (env : penv)
    (d : dstate) :
  (success (runAutonomousTestCycle env d) = true <->
   (step <$> steps (runAutonomousTestCycle env d)) = plan env /\
   Forall (fun r => status r = "success")
     (steps (runAutonomousTestCycle env d))) /\
  (success (runAutonomousTestCycle env d) = true ->
   error (runAutonomousTestCycle env d) = None /\
   an_success (e_analysis env) = true /\
   last (ps_ops (run_cycle env d)) = Some OpAnalyze).
Proof.
  walk env d success_leaf.
Qed.

Ltac thrown_leaf :=
  report;
  let Hlast := fresh "Hlast" in
  let Hst := fresh "Hst" in
  intros Hlast Hst; rewrite last_snoc in Hlast; injection Hlast as <-;
  cbn [status outcome_status] in Hst; try discriminate Hst;
  (split; [reflexivity|]); eexists; (split; [reflexivity|]);
  first
    [ left; eexists;
      split; [rewrite ?app_assoc; apply last_snoc|];
      split; [reflexivity|assumption]
    | right; split; [reflexivity|]; eauto ].

(** A step left in status starting carries an exception.  When the last
    entry of the report still has the status it was pushed with, the
    report says failure and its error is the message of what was thrown:
    for a remote step, whose send was the last thing the run did, the
    rejection of that send (a timeout, a missing connection) or the
    [TypeError] of reading a result that is [null]; for the analysis
    step, the message of a failed [statSync] of one of the 60 attempts. *)
Theorem unfinished_step_carries_the_thrown_message (env : penv)
    (d : dstate) (s : stepRecord) :
  last (steps (runAutonomousTestCycle env d)) = Some s ->
  status s = "starting" ->
  success (runAutonomousTestCycle env d) = false /\
  exists m,
    error (runAutonomousTestCycle env d) = Some m /\
    ((exists cmd,
        last (ps_ops (run_cycle env d)) = Some (OpSend cmd) /\
        step_of (OpSend cmd) = step s /\
        send_error env cmd = Some m) \/
     (step s = "analyze_export" /\
      exists j, (j < EXPORT_ATTEMPTS)%nat /\
                stat_error (e_export env j) = Some m)).
Proof.
  walk env d thrown_leaf.
Qed.

Lemma unfinished_step_carries_the_thrown_message_witness :
  success (runAutonomousTestCycle effect_times_out dinit) = false /\
  exists m,
    error (runAutonomousTestCycle effect_times_out dinit) = Some m /\
    ((exists cmd,
        last (ps_ops (run_cycle effect_times_out dinit))
          = Some (OpSend cmd) /\
        step_of (OpSend cmd) = "apply_effect" /\
        send_error effect_times_out cmd = Some m) \/
     ("apply_effect" = "analyze_export" /\
      exists j, (j < EXPORT_ATTEMPTS)%nat /\
                stat_error (e_export effect_times_out j) = Some m)).
Proof.
  exact (unfinished_step_carries_the_thrown_message effect_times_out dinit
           (starting "apply_effect") eq_refl eq_refl).
Defined.

Ltac script_leaf :=
  report;
  first
    [ match goal with Hp : Forall poll_op ?p |- _ => exists p end
    | exists [] ];
  split; [first [assumption|constructor]|];
  cbn [app];
  first [eexists; cbn [app]; reflexivity
        |exists []; now rewrite app_nil_r].

(** The order of what a run does.  Whatever happens, the operations a run
    invoked are an initial part of one script: the restart, only if no
    panel was connected at the start; then the three commands, each sent
    once, with the fixed wait between applying the effect and exporting;
    then the poll of the exported file; then the analysis. *)
Theorem operations_follow_one_script (env : penv) (d : dstate) :
  exists poll,
    Forall poll_op poll /\
    ps_ops (run_cycle env d) `prefix_of` script env poll.
Proof.
  walk env d script_leaf.
Qed.

Ltac wait_leaf :=
  report; rewrite ?wait_total_app; cbn [wait_total];
  change effectProcessingWaitMs with 20000; lia.

(** A run spends at most 200 s in timers of its own: the fixed 20 s
    after applying the effect and at most 180 s polling for the exported
    file.  What else it takes is the time of the restart and of the three
    commands. *)
Theorem a_run_waits_at_most_200_seconds (env : penv) (d : dstate) :
  0 <= wait_total (ps_ops (run_cycle env d)) <= 200000.
Proof.
  assert (Hpos : forall poll, Forall poll_op poll -> 0 <= wait_total poll).
  { induction 1 as [|o poll Ho _ IH]; [simpl; lia|].
    destruct Ho as [->|[->|[->| ->]]]; simpl; lia. }
  walk env d
    ltac:(try match goal with
              | Hp : Forall poll_op _ |- _ => apply Hpos in Hp
              end; wait_leaf).
Qed.

Ltac dialog_leaf := report; reflexivity.

Lemma run_dialog (env : penv) (d : dstate) :
  ps_dialog (run_cycle env d)
  = if e_connected env then d
    else fst (restartPremiere (e_recovery env) d).
Proof.
  walk env d dialog_leaf.
Qed.

(** A run leaves the dialog watcher as it should be.  A run that starts
    with the panel connected does not touch the dialog handler at all; a
    run that has to restart the host starts the watcher and, however the
    restart and the rest of the run end, leaves it stopped, with no
    interval behind. *)
Theorem a_run_leaves_no_watcher_behind (env : penv) (history : list wop) :
  (e_connected env = true ->
   ps_dialog (run_cycle env (interleave dinit history))
   = interleave dinit history) /\
  (e_connected env = false ->
   dialogWatcherInterval
     (ps_dialog (run_cycle env (interleave dinit history))) = None /\
   intervals (ps_dialog (run_cycle env (interleave dinit history))) = ∅).
Proof.
  rewrite run_dialog. split; intros Hc; rewrite Hc; [reflexivity|].
  pose proof (RecoveryFacts.history_ok history) as H0.
  set (st0 := interleave dinit history) in *.
  unfold restartPremiere.
  pose proof (RecoveryFacts.readyLoop_ok (e_recovery env) 90000 0
                (Z.of_N (r_ready_lag (e_recovery env) 0))
                (relaunch (e_recovery env) st0)
                (RecoveryFacts.relaunch_ok (e_recovery env) st0 H0)) as Hr.
  unfold waitForPremiereReady.
  destruct (readyLoop (e_recovery env) 90000 0 _
              (relaunch (e_recovery env) st0)) as [st5 ready].
  simpl in Hr.
  pose proof (RecoveryFacts.interleave_ok (r_resumed (e_recovery env))
                st5 Hr) as H6.
  destruct ready; simpl.
  - now apply RecoveryFacts.peerLoop_stopped.
  - now apply RecoveryFacts.stop_stopped.
Qed.

End PipelineExtras.

(** ** The panel: timers, reconnection, answers *)

Module PanelFacts.

Import Server.
Import Panel Notions.

(** *** Timers *)

Lemma stopHeartbeat_timers st :
  timers_ok st -> timers_ok (stopHeartbeat st).
Proof.
  intros [Hi Ht]. unfold stopHeartbeat, timers_ok.
  destruct (heartbeatTimer st) as [t|] eqn:E; simpl; [|now rewrite E].
  split; [|exact Ht]. rewrite Hi. simpl. apply difference_diag_L.
Qed.

Lemma stopHeartbeat_stopped st :
  timers_ok st -> heartbeatTimer (stopHeartbeat st) = None /\
                  Panel.intervals (stopHeartbeat st) = ∅.
Proof.
  intros [Hi Ht]. unfold stopHeartbeat.
  destruct (heartbeatTimer st) as [t|] eqn:E; simpl.
  - split; [reflexivity|]. rewrite Hi. apply difference_diag_L.
  - rewrite E. split; [reflexivity|]. now rewrite Hi.
Qed.

Lemma startHeartbeat_timers st :
  timers_ok st -> timers_ok (startHeartbeat st).
Proof.
  intros H. pose proof (stopHeartbeat_timers st H) as [_ Ht].
  destruct (stopHeartbeat_stopped st H) as [_ Hi].
  unfold startHeartbeat, timers_ok. simpl. split; [|exact Ht].
  rewrite Hi. apply union_empty_r_L.
Qed.

Lemma scheduleReconnect_timers st :
  timers_ok st -> timers_ok (scheduleReconnect st).
Proof.
  intros [Hi Ht]. unfold scheduleReconnect, timers_ok.
  destruct (reconnectTimer st) as [t|] eqn:E; simpl; [now rewrite E|].
  split; [exact Hi|]. rewrite Ht. simpl. apply union_empty_r_L.
Qed.

Lemma connect_timers st throws :
  timers_ok st -> timers_ok (connect st throws).
Proof.
  intros H. unfold connect. destruct (ws_open st); [exact H|].
  destruct throws; [now apply scheduleReconnect_timers|exact H].
Qed.

Lemma send_if_open_timers st v :
  timers_ok st -> timers_ok (send_if_open st v).
Proof. intros H. unfold send_if_open. now destruct (ws_open st). Qed.

Lemma handleMessage_timers st data :
  timers_ok st -> timers_ok (handleMessage st data).
Proof.
  intros H. unfold handleMessage. destruct data as [msg|]; [|exact H].
  destruct (get msg "type") as [e|ty]; [exact H|].
  destruct (negb (is_str ty "command")); [exact H|].
  destruct (get msg "requestId") as [e|rid]; [exact H|].
  destruct (get msg "command") as [e|cmd]; [exact H|].
  destruct (get msg "params") as [e|params]; [exact H|].
  destruct (executeCommand cmd params) as [e|script].
  - now apply send_if_open_timers.
  - unfold evalScript. destruct (csInterface st); [exact H|].
    now apply send_if_open_timers.
Qed.

Lemma step_timers st e : timers_ok st -> timers_ok (step st e).
Proof.
  intros H. destruct e as [b|s|s|s data|t b|t|k r parsed|b]; simpl.
  - now apply connect_timers.
  - unfold on_open. destruct (sockets st !! s) as [[| | |]|]; try exact H.
    now apply startHeartbeat_timers.
  - unfold on_close.
    destruct (sockets st !! s) as [[| | |]|]; try exact H;
      now apply scheduleReconnect_timers, (stopHeartbeat_timers (mark st s CLOSED)).
  - unfold on_message.
    destruct (sockets st !! s) as [[| | |]|]; try exact H;
      now apply handleMessage_timers.
  - unfold on_timeout. destruct (bool_decide (t ∈ timeouts st)) eqn:Hin;
      [|exact H].
    apply bool_decide_eq_true in Hin. apply connect_timers.
    destruct H as [Hi Ht]. split; [exact Hi|]. simpl.
    rewrite Ht in *. destruct (reconnectTimer st) as [t'|]; simpl in *.
    + apply elem_of_singleton in Hin as ->. apply difference_diag_L.
    + now apply elem_of_empty in Hin.
  - unfold on_interval. destruct (bool_decide _); [|exact H].
    now apply send_if_open_timers.
  - unfold on_evaluated. destruct (evaluations st !! k); [|exact H].
    destruct (evalScript_outcome r parsed); now apply send_if_open_timers.
  - unfold reconnect. apply connect_timers.
    destruct (ws st) as [s|]; [|exact H].
    unfold close_socket. now destruct (sockets st !! s) as [[| | |]|].
Qed.

Lemma run_timers trace st : timers_ok st -> timers_ok (run st trace).
Proof.
  revert st. induction trace as [|e trace IH]; intros st H; [exact H|].
  apply IH, step_timers, H.
Qed.

Lemma init_timers : timers_ok Panel.init.
Proof. split; reflexivity. Qed.

(** The panel keeps at most one heartbeat interval and at most one
    reconnect timeout.  After any sequence of events the runtime's active
    intervals are exactly the handle in [heartbeatTimer], if any, and its
    pending timeouts exactly the handle in [reconnectTimer], if any; so
    starting the heartbeat again leaves one interval, stopping it leaves
    none, and scheduling a reconnect twice schedules one. *)
Theorem one_heartbeat_and_one_reconnect_timer (trace : list Panel.event) :
  Panel.intervals (run Panel.init trace)
    = handle_set (heartbeatTimer (run Panel.init trace)) /\
  timeouts (run Panel.init trace)
    = handle_set (reconnectTimer (run Panel.init trace)) /\
  size (Panel.intervals (startHeartbeat (run Panel.init trace))) = 1%nat /\
  Panel.intervals (stopHeartbeat (run Panel.init trace)) = ∅ /\
  scheduleReconnect (scheduleReconnect (run Panel.init trace))
    = scheduleReconnect (run Panel.init trace) /\
  size (timeouts (scheduleReconnect (run Panel.init trace))) = 1%nat.
Proof.
  pose proof (run_timers trace Panel.init init_timers) as H.
  set (st := run Panel.init trace) in *.
  destruct H as [Hi Ht]. split; [exact Hi|]. split; [exact Ht|].
  split; [|split; [|split]].
  - destruct (startHeartbeat_timers st (conj Hi Ht)) as [Hs _].
    rewrite Hs. unfold startHeartbeat, handle_set.
    cbn [heartbeatTimer]. apply size_singleton.
  - apply (stopHeartbeat_stopped st (conj Hi Ht)).
  - unfold scheduleReconnect at 2.
    destruct (reconnectTimer st) eqn:E;
      unfold scheduleReconnect; simpl; now rewrite ?E.
  - destruct (scheduleReconnect_timers st (conj Hi Ht)) as [_ Hs].
    rewrite Hs. unfold scheduleReconnect, handle_set.
    destruct (reconnectTimer st) eqn:E; cbn [reconnectTimer]; rewrite ?E;
      apply size_singleton.
Qed.

(** *** Reconnection *)

Lemma pursuing_ext (st st' : Panel.state) :
  ws st' = ws st -> sockets st' = sockets st ->
  reconnectTimer st' = reconnectTimer st -> timeouts st' = timeouts st ->
  pursuing st -> pursuing st'.
Proof.
  intros Hw Hs Hr Ht. unfold pursuing, live. now rewrite Hw, Hs, Hr, Ht.
Qed.

Lemma scheduleReconnect_pursuing st :
  timers_ok st -> pursuing (scheduleReconnect st).
Proof.
  intros [_ Ht]. right. unfold scheduleReconnect.
  destruct (reconnectTimer st) as [t|] eqn:E.
  - exists t. split; [exact E|]. rewrite Ht, ?E. unfold handle_set.
    now apply elem_of_singleton_2.
  - eexists. split; [reflexivity|]. cbn [timeouts]. apply elem_of_union_l.
    now apply elem_of_singleton_2.
Qed.

Lemma ws_open_Some st s :
  ws_open st = Some s <-> ws st = Some s /\ sockets st !! s = Some OPEN.
Proof.
  unfold ws_open. split.
  - destruct (ws st) as [s'|]; [|discriminate].
    destruct (sockets st !! s') as [[| | |]|] eqn:E; try discriminate.
    intros H. injection H as ->. now split.
  - intros [-> ->]. reflexivity.
Qed.

Lemma connect_pursuing st throws :
  timers_ok st -> pursuing (connect st throws).
Proof.
  intros H. unfold connect. destruct (ws_open st) as [s|] eqn:E.
  - apply ws_open_Some in E as [Hw Hs]. left. exists s.
    split; [exact Hw|]. exists OPEN. now split.
  - destruct throws; [now apply scheduleReconnect_pursuing|].
    left. eexists. split; [reflexivity|]. exists CONNECTING. simpl.
    split; [apply lookup_insert_eq|discriminate].
Qed.

Lemma send_if_open_frame st v :
  ws (send_if_open st v) = ws st /\
  sockets (send_if_open st v) = sockets st /\
  reconnectTimer (send_if_open st v) = reconnectTimer st /\
  timeouts (send_if_open st v) = timeouts st /\
  heartbeatTimer (send_if_open st v) = heartbeatTimer st /\
  evaluations (send_if_open st v) = evaluations st /\
  nextEvaluation (send_if_open st v) = nextEvaluation st.
Proof. unfold send_if_open. destruct (ws_open st); now repeat split. Qed.

Lemma handleMessage_frame st data :
  ws (handleMessage st data) = ws st /\
  sockets (handleMessage st data) = sockets st /\
  reconnectTimer (handleMessage st data) = reconnectTimer st /\
  timeouts (handleMessage st data) = timeouts st /\
  heartbeatTimer (handleMessage st data) = heartbeatTimer st.
Proof.
  unfold handleMessage. destruct data as [msg|]; [|now repeat split].
  destruct (get msg "type") as [e|ty]; [now repeat split|].
  destruct (negb (is_str ty "command")); [now repeat split|].
  destruct (get msg "requestId") as [e|rid]; [now repeat split|].
  destruct (get msg "command") as [e|cmd]; [now repeat split|].
  destruct (get msg "params") as [e|params]; [now repeat split|].
  destruct (executeCommand cmd params) as [e|script].
  - unfold sendResponse.
    destruct (send_if_open_frame st (response rid VNull (VStr e)))
      as (? & ? & ? & ? & ? & _). now repeat split.
  - unfold evalScript. destruct (csInterface st); [now repeat split|].
    unfold sendResponse.
    destruct (send_if_open_frame st
                (response rid VNull (VStr NO_INTERFACE)))
      as (? & ? & ? & ? & ? & _). now repeat split.
Qed.

Lemma on_evaluated_frame st k r parsed :
  ws (on_evaluated st k r parsed) = ws st /\
  sockets (on_evaluated st k r parsed) = sockets st /\
  reconnectTimer (on_evaluated st k r parsed) = reconnectTimer st /\
  timeouts (on_evaluated st k r parsed) = timeouts st /\
  heartbeatTimer (on_evaluated st k r parsed) = heartbeatTimer st.
Proof.
  unfold on_evaluated. destruct (evaluations st !! k); [|now repeat split].
  destruct (evalScript_outcome r parsed); unfold sendResponse;
    match goal with
    | |- context [send_if_open ?s ?v] =>
        destruct (send_if_open_frame s v) as (? & ? & ? & ? & ? & _)
    end; now repeat split.
Qed.

Lemma live_mark st s rs s' :
  live st s' -> rs <> CLOSED -> live (mark st s rs) s'.
Proof.
  intros (rs' & Hl & Hn) Hrs. unfold live, mark. simpl.
  destruct (decide (s = s')) as [->|Hne].
  - exists rs. split; [apply lookup_insert_eq|exact Hrs].
  - exists rs'. split; [now rewrite lookup_insert_ne|exact Hn].
Qed.

Lemma step_pursuing st e :
  timers_ok st -> pursuing st \/ by_hand e = true -> pursuing (step st e).
Proof.
  intros Hok H.
  destruct e as [b|s|s|s data|t b|t|k r parsed|b]; simpl.
  - now apply connect_pursuing.
  - destruct H as [H|H]; [|discriminate H]. unfold on_open.
    destruct (sockets st !! s) as [[| | |]|] eqn:E; try exact H.
    apply (pursuing_ext (mark st s OPEN)).
    + unfold startHeartbeat, stopHeartbeat. simpl.
      now destruct (heartbeatTimer st).
    + unfold startHeartbeat, stopHeartbeat. simpl.
      now destruct (heartbeatTimer st).
    + unfold startHeartbeat, stopHeartbeat. simpl.
      now destruct (heartbeatTimer st).
    + unfold startHeartbeat, stopHeartbeat. simpl.
      now destruct (heartbeatTimer st).
    + destruct H as [(s' & Hw & Hl)|H]; [|right; exact H].
      left. exists s'. split; [exact Hw|].
      apply live_mark; [exact Hl|discriminate].
  - destruct H as [H|H]; [|discriminate H]. unfold on_close.
    destruct (sockets st !! s) as [[| | |]|] eqn:E; try exact H;
      apply scheduleReconnect_pursuing;
      apply (stopHeartbeat_timers (mark st s CLOSED)), Hok.
  - destruct H as [H|H]; [|discriminate H]. unfold on_message.
    destruct (sockets st !! s) as [[| | |]|] eqn:E; try exact H;
      destruct (handleMessage_frame st data) as (? & ? & ? & ? & _);
      now apply (pursuing_ext st).
  - unfold on_timeout. destruct (bool_decide (t ∈ timeouts st)) eqn:Hin.
    + apply bool_decide_eq_true in Hin. apply connect_pursuing.
      destruct Hok as [Hi Ht]. split; [exact Hi|]. simpl.
      rewrite Ht in *. destruct (reconnectTimer st) as [t'|]; simpl in *.
      * apply elem_of_singleton in Hin as ->. apply difference_diag_L.
      * now apply elem_of_empty in Hin.
    + destruct H as [H|H]; [exact H|discriminate H].
  - destruct H as [H|H]; [|discriminate H]. unfold on_interval.
    destruct (bool_decide _); [|exact H].
    destruct (send_if_open_frame st HEARTBEAT) as (? & ? & ? & ? & _).
    now apply (pursuing_ext st).
  - destruct H as [H|H]; [|discriminate H].
    destruct (on_evaluated_frame st k r parsed) as (? & ? & ? & ? & _).
    now apply (pursuing_ext st).
  - unfold reconnect. apply connect_pursuing.
    destruct (ws st) as [s|]; [|exact Hok].
    unfold close_socket. now destruct (sockets st !! s) as [[| | |]|].
Qed.

Lemma run_pursuing trace st :
  timers_ok st ->
  pursuing st \/ Exists (fun e => by_hand e = true) trace ->
  pursuing (run st trace).
Proof.
  revert st. induction trace as [|e trace IH]; intros st Hok H.
  - destruct H as [H|H]; [exact H|inversion H].
  - change (run st (e :: trace)) with (run (step st e) trace).
    apply IH; [now apply step_timers|].
    destruct H as [H|H].
    + left. apply step_pursuing; [exact Hok|now left].
    + inversion H as [? ? He|? ? Hrest]; subst.
      * left. apply step_pursuing; [exact Hok|now right].
      * now right.
Qed.

(** The panel never stops trying to reach the server.  From the moment
    the page has loaded (or the reconnect button was pressed), after any
    sequence of events — sockets failing, closing, constructors throwing,
    timers firing — the panel either holds a socket that is not closed
    yet, or has a reconnect timeout pending that will call [connect]. *)
Theorem panel_keeps_trying_to_connect (trace : list Panel.event) :
  Exists (fun e => by_hand e = true) trace ->
  (exists s rs,
     ws (run Panel.init trace) = Some s /\
     sockets (run Panel.init trace) !! s = Some rs /\ rs <> CLOSED) \/
  (exists t,
     reconnectTimer (run Panel.init trace) = Some t /\
     t ∈ timeouts (run Panel.init trace)).
Proof.
  intros H.
  destruct (run_pursuing trace Panel.init init_timers (or_intror H))
    as [(s & Hw & rs & Hs & Hrs)|Ht].
  - left. now exists s, rs.
  - right. exact Ht.
Qed.

Lemma panel_keeps_trying_to_connect_witness :
  (exists s rs,
     ws (run Panel.init [PLoad false; PClose 0; PTimeout 0 true])
       = Some s /\
     sockets (run Panel.init [PLoad false; PClose 0; PTimeout 0 true]) !! s
       = Some rs /\ rs <> CLOSED) \/
  (exists t,
     reconnectTimer (run Panel.init [PLoad false; PClose 0; PTimeout 0 true])
       = Some t /\
     t ∈ timeouts (run Panel.init [PLoad false; PClose 0; PTimeout 0 true])).
Proof.
  apply (panel_keeps_trying_to_connect
           [PLoad false; PClose 0; PTimeout 0 true]).
  constructor. reflexivity.
Defined.

(** *** One socket at a time *)

Lemma ws_open_ext (st st' : Panel.state) :
  ws st' = ws st -> sockets st' = sockets st -> ws_open st' = ws_open st.
Proof. intros Hw Hs. unfold ws_open. now rewrite Hw, Hs. Qed.

Lemma orderly_ext (st st' : Panel.state) :
  ws st' = ws st -> sockets st' = sockets st ->
  reconnectTimer st' = reconnectTimer st ->
  heartbeatTimer st' = heartbeatTimer st ->
  orderly st -> orderly st'.
Proof.
  intros Hw Hs Hr Hh. unfold orderly, live.
  rewrite (ws_open_ext st st' Hw Hs). now rewrite Hw, Hs, Hr, Hh.
Qed.

Lemma ws_open_live st s : ws_open st = Some s -> live st s.
Proof.
  intros H. apply ws_open_Some in H as [_ H]. exists OPEN. now split.
Qed.

Lemma orderly_no_socket st :
  (forall s, ~ live st s) -> heartbeatTimer st = None -> orderly st.
Proof.
  intros Hno Hh. split; [|split].
  - intros s Hl. now apply Hno in Hl.
  - intros _ _. exact Hno.
  - rewrite Hh. split; intros [x Hx]; [discriminate Hx|].
    apply ws_open_live in Hx. now apply Hno in Hx.
Qed.

Lemma orderly_connect st throws :
  (forall s, ~ live st s) -> heartbeatTimer st = None ->
  reconnectTimer st = None ->
  orderly (connect st throws).
Proof.
  intros Hno Hh Hr. unfold connect.
  destruct (ws_open st) as [s|] eqn:E;
    [apply ws_open_live in E; now apply Hno in E|].
  destruct throws.
  - apply orderly_no_socket.
    + intros s. unfold scheduleReconnect, live.
      destruct (reconnectTimer st); apply Hno.
    + unfold scheduleReconnect. now destruct (reconnectTimer st).
  - split; [|split]; simpl.
    + intros s (rs & Hs & Hrs). simpl in Hs.
      destruct (decide (nextSocket st = s)) as [->|Hne]; [reflexivity|].
      rewrite lookup_insert_ne in Hs by exact Hne.
      exfalso. apply (Hno s). now exists rs.
    + intros t Ht. congruence.
    + rewrite Hh. unfold ws_open. simpl. rewrite lookup_insert_eq.
      split; intros [x Hx]; discriminate Hx.
Qed.

Lemma step_orderly st e :
  by_hand e = false -> timers_ok st -> orderly st -> orderly (step st e).
Proof.
  intros He Hok (Hone & Hidle & Hbeat).
  assert (Hinv : orderly st) by (split; [|split]; assumption).
  destruct e as [b|s|s|s data|t b|t|k r parsed|b]; simpl;
    try discriminate He.
  - (* open *)
    unfold on_open.
    destruct (sockets st !! s) as [[| | |]|] eqn:E; try exact Hinv.
    assert (Hl : live st s) by (exists CONNECTING; now split).
    pose proof (Hone s Hl) as Hw.
    assert (Hfields : ws (startHeartbeat (mark st s OPEN)) = ws st /\
                      sockets (startHeartbeat (mark st s OPEN))
                      = <[s := OPEN]> (sockets st) /\
                      reconnectTimer (startHeartbeat (mark st s OPEN))
                      = reconnectTimer st /\
                      is_Some (heartbeatTimer
                                 (startHeartbeat (mark st s OPEN)))).
    { unfold startHeartbeat, stopHeartbeat. simpl.
      destruct (heartbeatTimer st); simpl; repeat split; eauto. }
    destruct Hfields as (Hw' & Hs' & Hr' & Hh').
    split; [|split].
    + intros s' (rs & Hl' & Hrs). rewrite Hw', Hs' in *.
      destruct (decide (s = s')) as [->|Hne]; [exact Hw|].
      rewrite lookup_insert_ne in Hl' by exact Hne.
      apply Hone. now exists rs.
    + intros t Ht. rewrite Hr' in Ht. exfalso. now apply (Hidle t Ht s).
    + split; [intros _|intros _; exact Hh'].
      exists s. apply ws_open_Some. rewrite Hw', Hs'.
      split; [exact Hw|apply lookup_insert_eq].
  - (* close *)
    unfold on_close.
    assert (Hclosed : live st s ->
              orderly (scheduleReconnect
                         (reset_autoSetup (stopHeartbeat (mark st s CLOSED))))).
    { intros Hl. pose proof (Hone s Hl) as Hw.
      destruct (stopHeartbeat_stopped (mark st s CLOSED) Hok) as [Hh _].
      apply orderly_no_socket.
      - intros s' (rs & Hl' & Hrs).
        assert (Hs' : sockets (scheduleReconnect
                                 (reset_autoSetup
                                    (stopHeartbeat (mark st s CLOSED))))
                      = <[s := CLOSED]> (sockets st)).
        { unfold scheduleReconnect, reset_autoSetup, stopHeartbeat. simpl.
          destruct (heartbeatTimer st); simpl;
            destruct (reconnectTimer st); reflexivity. }
        rewrite Hs' in Hl'.
        destruct (decide (s = s')) as [->|Hne].
        + rewrite lookup_insert_eq in Hl'. congruence.
        + rewrite lookup_insert_ne in Hl' by exact Hne.
          assert (Hl2 : live st s') by now exists rs.
          apply Hone in Hl2. congruence.
      - unfold scheduleReconnect, reset_autoSetup. simpl.
        destruct (reconnectTimer (stopHeartbeat (mark st s CLOSED)));
          exact Hh. }
    destruct (sockets st !! s) as [[| | |]|] eqn:E; try exact Hinv;
      apply Hclosed; eexists; (split; [exact E|discriminate]).
  - (* message *)
    unfold on_message.
    destruct (sockets st !! s) as [[| | |]|] eqn:E; try exact Hinv;
      destruct (handleMessage_frame st data) as (? & ? & ? & ? & ?);
      now apply (orderly_ext st).
  - (* reconnect timeout *)
    unfold on_timeout. destruct (bool_decide (t ∈ timeouts st)) eqn:Hin;
      [|exact Hinv].
    apply bool_decide_eq_true in Hin. destruct Hok as [Hi Ht].
    rewrite Ht in Hin. destruct (reconnectTimer st) as [t'|] eqn:Er;
      [|now apply elem_of_empty in Hin].
    pose proof (Hidle t' eq_refl) as Hno.
    apply orderly_connect; [exact Hno| |reflexivity].
    simpl. destruct (heartbeatTimer st) as [h|]; [|reflexivity].
    destruct Hbeat as [Hb _]. destruct (Hb (mk_is_Some _ _ eq_refl)) as [x Hx].
    apply ws_open_live in Hx. now apply Hno in Hx.
  - (* heartbeat tick *)
    unfold on_interval. destruct (bool_decide _); [|exact Hinv].
    destruct (send_if_open_frame st HEARTBEAT) as (? & ? & ? & ? & ? & _).
    now apply (orderly_ext st).
  - (* evaluation *)
    destruct (on_evaluated_frame st k r parsed) as (? & ? & ? & ? & ?).
    now apply (orderly_ext st).
Qed.

Lemma run_orderly trace st :
  automatic trace -> timers_ok st -> orderly st -> orderly (run st trace).
Proof.
  revert st. induction trace as [|e trace IH]; intros st Ha Hok H; [exact H|].
  inversion Ha as [|? ? He Hrest]; subst.
  change (run st (e :: trace)) with (run (step st e) trace).
  apply IH; [exact Hrest|now apply step_timers|now apply step_orderly].
Qed.

Lemma load_orderly throws : orderly (on_load Panel.init throws).
Proof.
  apply orderly_connect; [|reflexivity|reflexivity].
  intros s (rs & Hs & _). simpl in Hs. rewrite lookup_empty in Hs.
  discriminate Hs.
Qed.

(** Left to itself, the panel has one socket at a time.  After the page
    has loaded, as long as nobody presses the reconnect button, in every
    state: the heartbeat interval runs exactly while the current socket is
    open; a socket that is not closed is the current one; and while a
    reconnect timeout is pending no socket is left. *)
Theorem heartbeat_runs_exactly_while_connected (throws : bool)
    (trace : list Panel.event) :
  automatic trace ->
  (is_Some (heartbeatTimer (run Panel.init (PLoad throws :: trace))) <->
   is_Some (ws_open (run Panel.init (PLoad throws :: trace)))) /\
  (forall s rs,
     sockets (run Panel.init (PLoad throws :: trace)) !! s = Some rs ->
     rs <> CLOSED ->
     ws (run Panel.init (PLoad throws :: trace)) = Some s) /\
  (forall s rs,
     is_Some (reconnectTimer (run Panel.init (PLoad throws :: trace))) ->
     sockets (run Panel.init (PLoad throws :: trace)) !! s = Some rs ->
     rs = CLOSED).
Proof.
  intros Ha.
  change (run Panel.init (PLoad throws :: trace))
    with (run (on_load Panel.init throws) trace).
  assert (Hok : timers_ok (on_load Panel.init throws)).
  { apply (step_timers Panel.init (PLoad throws)), init_timers. }
  destruct (run_orderly trace _ Ha Hok (load_orderly throws))
    as (Hone & Hidle & Hbeat).
  split; [exact Hbeat|]. split.
  - intros s rs Hs Hrs. apply Hone. now exists rs.
  - intros s rs [t Ht] Hs. destruct rs; try reflexivity;
      exfalso; apply (Hidle t Ht s); eexists; split;
      try exact Hs; discriminate.
Qed.

Lemma heartbeat_runs_exactly_while_connected_witness :
  is_Some (heartbeatTimer
             (run Panel.init [PLoad false; POpen 0; PInterval 0])) /\
  is_Some (ws_open (run Panel.init [PLoad false; POpen 0; PInterval 0])).
Proof.
  destruct (heartbeat_runs_exactly_while_connected false
              [POpen 0; PInterval 0]) as [Hbeat _].
  { repeat constructor. }
  split; [|apply Hbeat]; eexists; reflexivity.
Defined.

(** With the reconnect button this fails: the close of the socket that
    was given up arrives after the new socket has opened, and stops the
    heartbeat of the new connection. *)
Example reconnect_by_hand_can_stop_the_heartbeat :
  ws_open (run Panel.init [PLoad false; POpen 0; PReconnect false;
                           POpen 1; PClose 0]) = Some 1%nat /\
  heartbeatTimer (run Panel.init [PLoad false; POpen 0; PReconnect false;
                                  POpen 1; PClose 0]) = None.
Proof. split; reflexivity. Qed.

(** *** Answers *)

Lemma answered_send st v :
  answered (send_if_open st v)
  = answered st ++
    match ws_open st with
    | Some s => option_list (answer_id (Frame s v))
    | None => []
    end.
Proof.
  unfold answered, send_if_open.
  destruct (ws_open st) as [s|]; [|now rewrite app_nil_r].
  simpl. rewrite omap_app. simpl. now destruct (answer_id (Frame s v)).
Qed.

Lemma awaited_send st v : awaited_ids (send_if_open st v) = awaited_ids st.
Proof. unfold awaited_ids, send_if_open. now destruct (ws_open st). Qed.

Lemma fresh_send st v :
  fresh_evaluations st -> fresh_evaluations (send_if_open st v).
Proof. unfold fresh_evaluations, send_if_open. now destruct (ws_open st). Qed.

Lemma response_submseteq st rid r e base :
  answered st ++ awaited_ids st ⊆+ base ->
  answered (sendResponse st rid r e) ++ awaited_ids (sendResponse st rid r e)
    ⊆+ base ++ [rid].
Proof.
  intros H. unfold sendResponse. rewrite answered_send, awaited_send.
  destruct (ws_open st) as [s|].
  - change (answer_id (Frame s (response rid r e))) with (Some rid).
    simpl. rewrite <- app_assoc.
    rewrite (Permutation_app_comm [rid] (awaited_ids st)).
    rewrite app_assoc. now apply submseteq_app.
  - rewrite app_nil_r. now apply submseteq_inserts_r.
Qed.

Lemma step_answers st e :
  fresh_evaluations st ->
  fresh_evaluations (step st e) /\
  answered (step st e) ++ awaited_ids (step st e)
    ⊆+ (answered st ++ awaited_ids st) ++ option_list (command_id e).
Proof.
  intros Hfresh.
  assert (Hsame : forall st' extra,
            sent st' = sent st -> evaluations st' = evaluations st ->
            nextEvaluation st' = nextEvaluation st ->
            fresh_evaluations st' /\
            answered st' ++ awaited_ids st'
              ⊆+ (answered st ++ awaited_ids st) ++ extra).
  { intros st' extra Hs He Hn.
    unfold fresh_evaluations, answered, awaited_ids.
    rewrite Hs, He, Hn. split; [exact Hfresh|].
    now apply submseteq_inserts_r. }
  destruct e as [b|s|s|s data|t b|t|k r parsed|b]; simpl.
  - apply Hsame; unfold on_load, connect, scheduleReconnect; simpl;
      destruct (ws_open _); try reflexivity;
      destruct b; try reflexivity; now destruct (reconnectTimer st).
  - apply Hsame; unfold on_open, startHeartbeat, stopHeartbeat;
      destruct (sockets st !! s) as [[| | |]|]; try reflexivity; simpl;
      now destruct (heartbeatTimer st).
  - apply Hsame;
      unfold on_close, scheduleReconnect, reset_autoSetup, stopHeartbeat;
      destruct (sockets st !! s) as [[| | |]|]; try reflexivity; simpl;
      destruct (heartbeatTimer st); simpl;
      now destruct (reconnectTimer st).
  - (* message *)
    assert (Hhandled :
              fresh_evaluations (handleMessage st data) /\
              answered (handleMessage st data)
                ++ awaited_ids (handleMessage st data)
                ⊆+ (answered st ++ awaited_ids st)
                   ++ option_list (command_id (PMessage s data))).
    { unfold handleMessage, command_id.
      destruct data as [msg|]; [|now apply Hsame].
      destruct (get msg "type") as [e|ty]; [now apply Hsame|].
      destruct (get msg "requestId") as [e|rid];
        [destruct (negb (is_str ty "command")); now apply Hsame|].
      destruct (is_str ty "command"); cbn [negb];
        [|split; [exact Hfresh|now rewrite app_nil_r]].
      destruct (get msg "command") as [e|cmd];
        [split; [exact Hfresh|now apply submseteq_inserts_r]|].
      destruct (get msg "params") as [e|params];
        [split; [exact Hfresh|now apply submseteq_inserts_r]|].
      assert (Hanswer : forall r e,
                fresh_evaluations (sendResponse st rid r e) /\
                answered (sendResponse st rid r e)
                  ++ awaited_ids (sendResponse st rid r e)
                  ⊆+ (answered st ++ awaited_ids st) ++ [rid]).
      { intros r e. split; [now apply fresh_send|].
        now apply response_submseteq. }
      destruct (executeCommand cmd params) as [e|script];
        [apply Hanswer|].
      unfold evalScript. destruct (csInterface st); [|apply Hanswer].
      split.
      - intros k Hk. simpl in *. rewrite lookup_insert_ne by lia.
        apply Hfresh. lia.
      - unfold answered, awaited_ids. simpl.
        rewrite map_to_list_insert by (apply Hfresh; lia). simpl.
        rewrite <- app_assoc. apply submseteq_app; [reflexivity|].
        apply Permutation_submseteq.
        change (rid :: ?l) with ([rid] ++ l). apply Permutation_app_comm. }
    unfold on_message.
    destruct (sockets st !! s) as [[| | |]|];
      try exact Hhandled; now apply Hsame.
  - apply Hsame; unfold on_timeout, connect, scheduleReconnect;
      destruct (bool_decide _); try reflexivity;
      destruct (ws_open _); try reflexivity;
      destruct b; try reflexivity; simpl; reflexivity.
  - unfold on_interval. destruct (bool_decide _); [|now apply Hsame].
    split; [now apply fresh_send|].
    rewrite answered_send, awaited_send.
    destruct (ws_open st); simpl; rewrite !app_nil_r; reflexivity.
  - (* evaluation *)
    unfold on_evaluated.
    destruct (evaluations st !! k) as [ev|] eqn:Ek; [|now apply Hsame].
    set (st1 := {| ws := ws st; csInterface := csInterface st;
                   heartbeatTimer := heartbeatTimer st;
                   reconnectTimer := reconnectTimer st;
                   autoSetupDone := autoSetupDone st;
                   sockets := sockets st; nextSocket := nextSocket st;
                   Panel.intervals := Panel.intervals st;
                   timeouts := timeouts st;
                   Panel.nextTimer := Panel.nextTimer st;
                   evaluations := delete k (evaluations st);
                   nextEvaluation := nextEvaluation st;
                   sent := sent st |}).
    assert (Hf1 : fresh_evaluations st1).
    { intros k' Hk'. simpl in *.
      destruct (decide (k = k')) as [->|Hne].
      - apply lookup_delete_eq.
      - rewrite lookup_delete_ne by exact Hne. now apply Hfresh. }
    assert (Hperm : answered st1 ++ [ev_requestId ev] ++ awaited_ids st1
                    ≡ₚ answered st ++ awaited_ids st).
    { unfold answered, awaited_ids. simpl.
      rewrite <- (map_to_list_delete (evaluations st) k ev Ek).
      reflexivity. }
    assert (Hanswer : forall r e,
              fresh_evaluations (sendResponse st1 (ev_requestId ev) r e) /\
              answered (sendResponse st1 (ev_requestId ev) r e)
                ++ awaited_ids (sendResponse st1 (ev_requestId ev) r e)
                ⊆+ (answered st ++ awaited_ids st) ++ []).
    { intros r0 e0. split; [now apply fresh_send|].
      rewrite app_nil_r, <- Hperm.
      rewrite (Permutation_app_comm [ev_requestId ev] (awaited_ids st1)).
      rewrite app_assoc. apply response_submseteq. reflexivity. }
    destruct (evalScript_outcome r parsed); apply Hanswer.
  - apply Hsame; unfold reconnect, connect, scheduleReconnect,
      reset_autoSetup, close_socket;
      destruct (ws st) as [s|]; simpl;
      try (destruct (sockets st !! s) as [[| | |]|]; simpl);
      destruct (ws_open _); try reflexivity;
      destruct b; try reflexivity; simpl;
      now destruct (reconnectTimer st).
Qed.

Lemma run_answers trace st base :
  fresh_evaluations st ->
  answered st ++ awaited_ids st ⊆+ base ->
  answered (run st trace) ++ awaited_ids (run st trace)
    ⊆+ base ++ asked trace.
Proof.
  revert st base. induction trace as [|e trace IH]; intros st base Hf H.
  - simpl. now rewrite app_nil_r.
  - change (run st (e :: trace)) with (run (step st e) trace).
    destruct (step_answers st e Hf) as [Hf' Hstep].
    assert (Hasked : asked (e :: trace)
                     = option_list (command_id e) ++ asked trace).
    { unfold asked. simpl. now destruct (command_id e). }
    rewrite Hasked, app_assoc. apply IH; [exact Hf'|].
    etransitivity; [exact Hstep|]. apply submseteq_app; [exact H|reflexivity].
Qed.

Lemma send_panel_frame st v :
  v = HEARTBEAT \/ (exists rid r e, v = response rid r e) ->
  Forall panel_frame (sent st) -> Forall panel_frame (sent (send_if_open st v)).
Proof.
  intros Hv H. unfold send_if_open. destruct (ws_open st) as [s|]; [|exact H].
  simpl. apply Forall_app. split; [exact H|]. constructor; [|constructor].
  exact Hv.
Qed.

Lemma step_panel_frames st e :
  Forall panel_frame (sent st) -> Forall panel_frame (sent (step st e)).
Proof.
  intros H.
  assert (Hsame : forall st', sent st' = sent st ->
                              Forall panel_frame (sent st'))
    by (intros st' ->; exact H).
  destruct e as [b|s|s|s data|t b|t|k r parsed|b]; simpl.
  - apply Hsame; unfold on_load, connect, scheduleReconnect; simpl;
      destruct (ws_open _); try reflexivity;
      destruct b; try reflexivity; now destruct (reconnectTimer st).
  - apply Hsame; unfold on_open, startHeartbeat, stopHeartbeat;
      destruct (sockets st !! s) as [[| | |]|]; try reflexivity; simpl;
      now destruct (heartbeatTimer st).
  - apply Hsame;
      unfold on_close, scheduleReconnect, reset_autoSetup, stopHeartbeat;
      destruct (sockets st !! s) as [[| | |]|]; try reflexivity; simpl;
      destruct (heartbeatTimer st); simpl;
      now destruct (reconnectTimer st).
  - assert (Hhandled : Forall panel_frame (sent (handleMessage st data))).
    { unfold handleMessage. destruct data as [msg|]; [|exact H].
      destruct (get msg "type") as [e|ty]; [exact H|].
      destruct (negb (is_str ty "command")); [exact H|].
      destruct (get msg "requestId") as [e|rid]; [exact H|].
      destruct (get msg "command") as [e|cmd]; [exact H|].
      destruct (get msg "params") as [e|params]; [exact H|].
      destruct (executeCommand cmd params) as [e|script].
      - apply send_panel_frame; [right; eauto|exact H].
      - unfold evalScript. destruct (csInterface st); [exact H|].
        apply send_panel_frame; [right; eauto|exact H]. }
    unfold on_message.
    destruct (sockets st !! s) as [[| | |]|]; try exact Hhandled; exact H.
  - apply Hsame; unfold on_timeout, connect, scheduleReconnect;
      destruct (bool_decide _); try reflexivity;
      destruct (ws_open _); try reflexivity;
      destruct b; try reflexivity; simpl; reflexivity.
  - unfold on_interval. destruct (bool_decide _); [|exact H].
    apply send_panel_frame; [now left|exact H].
  - unfold on_evaluated.
    destruct (evaluations st !! k) as [ev|]; [|exact H].
    destruct (evalScript_outcome r parsed);
      (apply send_panel_frame; [right; eauto|exact H]).
  - apply Hsame; unfold reconnect, connect, scheduleReconnect,
      reset_autoSetup, close_socket;
      destruct (ws st) as [s|]; simpl;
      try (destruct (sockets st !! s) as [[| | |]|]; simpl);
      destruct (ws_open _); try reflexivity;
      destruct b; try reflexivity; simpl;
      now destruct (reconnectTimer st).
Qed.

Lemma run_panel_frames trace st :
  Forall panel_frame (sent st) -> Forall panel_frame (sent (run st trace)).
Proof.
  revert st. induction trace as [|e trace IH]; intros st H; [exact H|].
  apply IH, step_panel_frames, H.
Qed.

(** The panel answers only what it was asked, and at most once.  After
    any sequence of events, the request ids of the responses the panel
    has sent, together with those of the evaluations it still waits for,
    are — counted with repetitions — among the request ids of the command
    messages that were delivered to it; and every frame it has sent is a
    heartbeat or a response. *)
Theorem panel_answers_each_command_at_most_once (trace : list Panel.event) :
  answered (run Panel.init trace) ++ awaited_ids (run Panel.init trace)
    ⊆+ asked trace /\
  Forall panel_frame (sent (run Panel.init trace)).
Proof.
  split.
  - apply (run_answers trace Panel.init []).
    + intros k _. apply lookup_empty.
    + reflexivity.
  - apply run_panel_frames. constructor.
Qed.

End PanelFacts.

(** ** Server and panel together *)

Module Together.

Import Notions.









End Together.
